(** * Heavenly-Feeding: the room simulation of [server/index.js]

    A shallow embedding of the authoritative game server (the room-scoped
    variant of [server/index.js], with [rooms], [started] and [ready]) and
    the properties of its simulation step and message handlers.

    Modelling choices.
    - A JavaScript number is an IEEE 754 binary64 value: Rocq's primitive
      [float], with the same rounding.  Decimal literals are rounded to the
      nearest double, as the JavaScript parser does.
    - [Math.hypot], [Math.cos], [Math.sin], [Math.atan2], [Math.random] and
      the string-to-number grammar behind [Number] are the host's: they are
      the fields of the class [Host].
    - Food ids are the integers counted by [nextFoodId]: [N].
    - [room.players] is a [Map] in insertion order, keyed by the player's
      id: a list of players.  [room.foods] is an array: a list of foods.
      Objects mutated in place inside a loop are addressed by their index.
    - [food.mouthTimers] is an object used as a dictionary: a [gmap].
    - A [while] loop runs on fuel and returns [None] when the fuel runs out. *)

From Stdlib Require Import Floats ZArith.
From Stdlib Require Uint63.
From stdpp Require Import gmap strings list.

#[local] Set Warnings "-inexact-float".
#[local] Open Scope float_scope.

(** ** JavaScript numbers *)

Module Js.

(** [ToBoolean] of a number: [0], [-0] and [NaN] are falsy. *)
Definition truthy (a : float) : bool := negb (is_zero a || is_nan a).

(** [a || b] on numbers. *)
Definition or (a b : float) : float := if truthy a then a else b.

(** [Math.min(a, b)]: [NaN] if either is, and [-0] below [+0]. *)
Definition min (a b : float) : float :=
  if is_nan a || is_nan b then nan
  else if a <? b then a
  else if b <? a then b
  else if is_zero a && get_sign b then b
  else a.

(** [Math.max(a, b)]: [NaN] if either is, and [+0] above [-0]. *)
Definition max (a b : float) : float :=
  if is_nan a || is_nan b then nan
  else if a <? b then b
  else if b <? a then a
  else if is_zero a && get_sign a then b
  else a.

(** [a >= b] and [a > b]. *)
Definition geb (a b : float) : bool := b <=? a.
Definition gtb (a b : float) : bool := b <? a.

End Js.

(** ** Constants *)

Definition Math_PI : float := 3.141592653589793.

Definition WIDTH : float := 960.
Definition HEIGHT : float := 540.
Definition TICK_RATE : float := 60.
Definition DT : float := 1 / TICK_RATE.

Definition MOVE_SPEED : float := 220.
Definition MAX_ANGULAR_SPEED : float := 4.5.
Definition CHOPSTICK_LENGTH : float := 181.
Definition CONE_RADIUS : float := 180.
Definition CONE_HALF_ANGLE : float := Math_PI / 3.
Definition PICKUP_CLOSE_RADIUS : float := 26.
Definition MOUTH_RADIUS : float := 30.
Definition MOUTH_OFFSET_X : float := 0.
Definition MOUTH_OFFSET_Y_LEFT : float := 84.
Definition MOUTH_OFFSET_Y_RIGHT : float := 67.
Definition EAT_TIME : float := 0.4.
Definition MAX_FOOD : nat := 8.
Definition SPAWN_INTERVAL : float := 2.0.
Definition GRAVITY : float := 170.
Definition MAX_FULLNESS : float := 100.

Definition FOOD_TYPES : list (string * float) :=
  [ ("food_01", 6); ("food_02", 6); ("food_03", 7); ("food_04", 8);
    ("food_05", 9); ("food_06", 10); ("food_07", 10); ("food_08", 11);
    ("food_09", 12); ("food_10", 13) ]%string.

(** ** Angles *)

(** [while (a <= -Math.PI) a += Math.PI * 2;] *)
Fixpoint wrapAngle_up (fuel : nat) (a : float) : option float :=
  if a <=? - Math_PI then
    match fuel with
    | O => None
    | S fuel' => wrapAngle_up fuel' (a + Math_PI * 2)
    end
  else Some a.

(** [while (a > Math.PI) a -= Math.PI * 2;] *)
Fixpoint wrapAngle_down (fuel : nat) (a : float) : option float :=
  if Js.gtb a Math_PI then
    match fuel with
    | O => None
    | S fuel' => wrapAngle_down fuel' (a - Math_PI * 2)
    end
  else Some a.

Definition wrapAngle (fuel : nat) (angle : float) : option float :=
  a ← wrapAngle_up fuel angle; wrapAngle_down fuel a.

Definition clamp (value min max : float) : float :=
  Js.max min (Js.min max value).

Definition rotateTowards (fuel : nat) (current target maxDelta : float)
  : option float :=
  delta ← wrapAngle fuel (target - current);
  let clamped := Js.max (- maxDelta) (Js.min maxDelta delta) in
  wrapAngle fuel (current + clamped).


(** ** The host's functions *)

Class Host := {
  Math_hypot : float → float → float;
  Math_cos : float → float;
  Math_sin : float → float;
  Math_atan2 : float → float → float;
  (** the [k]-th value [Math.random()] returns in this process *)
  Math_random : nat → float;
  (** [StringToNumber] of ECMAScript *)
  StringToNumber : string → float
}.

(** ** Data model *)

Inductive Side := left | right.
Inductive FoodState := free | held.

#[global] Instance Side_eq_dec : EqDecision Side.
Proof. solve_decision. Defined.
#[global] Instance FoodState_eq_dec : EqDecision FoodState.
Proof. solve_decision. Defined.

Module Vec.
Record t := mk { x : float; y : float }.
End Vec.

Module Input.
Record t := mk {
  moveX : float;
  moveY : float;
  aim : float;
  release : bool
}.
Definition set_moveX v i := mk v (moveY i) (aim i) (release i).
Definition set_moveY v i := mk (moveX i) v (aim i) (release i).
Definition set_aim v i := mk (moveX i) (moveY i) v (release i).
Definition set_release v i := mk (moveX i) (moveY i) (aim i) v.
End Input.

Module Player.
Record t := mk {
  id : string;
  side : Side;
  x : float;
  y : float;
  angle : float;
  targetAngle : float;
  fullness : float;
  mouthOpenUntil : float;
  holdingFoodId : option N;
  ready : bool;
  input : Input.t
}.
Definition set_x v p :=
  mk (id p) (side p) v (y p) (angle p) (targetAngle p) (fullness p)
     (mouthOpenUntil p) (holdingFoodId p) (ready p) (input p).
Definition set_y v p :=
  mk (id p) (side p) (x p) v (angle p) (targetAngle p) (fullness p)
     (mouthOpenUntil p) (holdingFoodId p) (ready p) (input p).
Definition set_angle v p :=
  mk (id p) (side p) (x p) (y p) v (targetAngle p) (fullness p)
     (mouthOpenUntil p) (holdingFoodId p) (ready p) (input p).
Definition set_targetAngle v p :=
  mk (id p) (side p) (x p) (y p) (angle p) v (fullness p)
     (mouthOpenUntil p) (holdingFoodId p) (ready p) (input p).
Definition set_fullness v p :=
  mk (id p) (side p) (x p) (y p) (angle p) (targetAngle p) v
     (mouthOpenUntil p) (holdingFoodId p) (ready p) (input p).
Definition set_mouthOpenUntil v p :=
  mk (id p) (side p) (x p) (y p) (angle p) (targetAngle p) (fullness p)
     v (holdingFoodId p) (ready p) (input p).
Definition set_holdingFoodId v p :=
  mk (id p) (side p) (x p) (y p) (angle p) (targetAngle p) (fullness p)
     (mouthOpenUntil p) v (ready p) (input p).
Definition set_ready v p :=
  mk (id p) (side p) (x p) (y p) (angle p) (targetAngle p) (fullness p)
     (mouthOpenUntil p) (holdingFoodId p) v (input p).
Definition set_input v p :=
  mk (id p) (side p) (x p) (y p) (angle p) (targetAngle p) (fullness p)
     (mouthOpenUntil p) (holdingFoodId p) (ready p) v.

(** [if (player.holdingFoodId)]: [null] and the number [0] are falsy. *)
Definition holding (p : t) : option N :=
  match holdingFoodId p with
  | Some n => if (n =? 0)%N then None else Some n
  | None => None
  end.
End Player.

Module Food.
Record t := mk {
  id : N;
  x : float;
  y : float;
  vx : float;
  vy : float;
  value : float;
  state : FoodState;
  heldBy : option string;
  mouthTimers : gmap string float
}.
Definition set_x v f :=
  mk (id f) v (y f) (vx f) (vy f) (value f) (state f) (heldBy f) (mouthTimers f).
Definition set_y v f :=
  mk (id f) (x f) v (vx f) (vy f) (value f) (state f) (heldBy f) (mouthTimers f).
Definition set_vx v f :=
  mk (id f) (x f) (y f) v (vy f) (value f) (state f) (heldBy f) (mouthTimers f).
Definition set_vy v f :=
  mk (id f) (x f) (y f) (vx f) v (value f) (state f) (heldBy f) (mouthTimers f).
Definition set_state v f :=
  mk (id f) (x f) (y f) (vx f) (vy f) (value f) v (heldBy f) (mouthTimers f).
Definition set_heldBy v f :=
  mk (id f) (x f) (y f) (vx f) (vy f) (value f) (state f) v (mouthTimers f).
Definition set_mouthTimers v f :=
  mk (id f) (x f) (y f) (vx f) (vy f) (value f) (state f) (heldBy f) v.

(** [if (food.heldBy)]: [null] and the empty string are falsy. *)
Definition holder (f : t) : option string :=
  match heldBy f with
  | Some s => if decide (s = ""%string) then None else Some s
  | None => None
  end.
End Food.

Module Room.
Record t := mk {
  id : string;
  players : list Player.t;
  foods : list Food.t;
  nextFoodId : N;
  lastSpawnTime : float;
  time : float;
  gameOver : bool;
  winnerId : option string;
  loserId : option string;
  started : bool
}.
Definition set_players v r :=
  mk (id r) v (foods r) (nextFoodId r) (lastSpawnTime r) (time r)
     (gameOver r) (winnerId r) (loserId r) (started r).
Definition set_foods v r :=
  mk (id r) (players r) v (nextFoodId r) (lastSpawnTime r) (time r)
     (gameOver r) (winnerId r) (loserId r) (started r).
Definition set_nextFoodId v r :=
  mk (id r) (players r) (foods r) v (lastSpawnTime r) (time r)
     (gameOver r) (winnerId r) (loserId r) (started r).
Definition set_lastSpawnTime v r :=
  mk (id r) (players r) (foods r) (nextFoodId r) v (time r)
     (gameOver r) (winnerId r) (loserId r) (started r).
Definition set_time v r :=
  mk (id r) (players r) (foods r) (nextFoodId r) (lastSpawnTime r) v
     (gameOver r) (winnerId r) (loserId r) (started r).
Definition set_gameOver v r :=
  mk (id r) (players r) (foods r) (nextFoodId r) (lastSpawnTime r) (time r)
     v (winnerId r) (loserId r) (started r).
Definition set_winnerId v r :=
  mk (id r) (players r) (foods r) (nextFoodId r) (lastSpawnTime r) (time r)
     (gameOver r) v (loserId r) (started r).
Definition set_loserId v r :=
  mk (id r) (players r) (foods r) (nextFoodId r) (lastSpawnTime r) (time r)
     (gameOver r) (winnerId r) v (started r).
Definition set_started v r :=
  mk (id r) (players r) (foods r) (nextFoodId r) (lastSpawnTime r) (time r)
     (gameOver r) (winnerId r) (loserId r) v.

(** The player object at position [i] of [room.players.values()], and
    the food object at position [i] of [room.foods], mutated in place. *)
Definition alter_player (f : Player.t → Player.t) (i : nat) (r : t) : t :=
  set_players (alter f i (players r)) r.
Definition alter_food (f : Food.t → Food.t) (i : nat) (r : t) : t :=
  set_foods (alter f i (foods r)) r.

(** [room.players.get(id)], as the position of the entry. *)
Definition player_index (pid : string) (r : t) : option nat :=
  fst <$> list_find (λ p, Player.id p = pid) (players r).

(** [room.foods.find((f) => f.id === id)], as the position of the food. *)
Definition food_index (fid : N) (r : t) : option nat :=
  fst <$> list_find (λ f, Food.id f = fid) (foods r).
End Room.

(** [createRoom(roomId)] *)
Definition createRoom (roomId : string) : Room.t :=
  {| Room.id := roomId;
     Room.players := [];
     Room.foods := [];
     Room.nextFoodId := 1;
     Room.lastSpawnTime := 0;
     Room.time := 0;
     Room.gameOver := false;
     Room.winnerId := None;
     Room.loserId := None;
     Room.started := false |}.

(** ** The simulation step *)

Section Simulation.
Context {host : Host}.

Definition normalize (x y : float) : Vec.t :=
  let len := Math_hypot x y in
  if len =? 0 then Vec.mk 0 0 else Vec.mk (x / len) (y / len).

(** [FOOD_TYPES[Math.floor(v)]]: [None] is [undefined]. *)
Definition food_type_at (v : float) : option (string * float) :=
  match Prim2SF v with
  | S754_zero _ => FOOD_TYPES !! 0%nat
  | S754_finite false m e => FOOD_TYPES !! Z.to_nat (Z.shiftl (Z.pos m) e)
  | _ => None
  end.

(** [spawnFood(room)], from the [k]-th random value on.  [None]: the
    call throws, reading [type.value] of [undefined]. *)
Definition spawnFood (k : nat) (room : Room.t) : option (nat * Room.t) :=
  if decide (MAX_FOOD ≤ length (Room.foods room))%nat then Some (k, room)
  else
    type ← food_type_at (Math_random k * 10);
    let food :=
      {| Food.id := Room.nextFoodId room;
         Food.x := 80 + Math_random (k + 1) * (WIDTH - 160);
         Food.y := -20;
         Food.vx := (Math_random (k + 2) - 0.5) * 16;
         Food.vy := 0;
         Food.value := type.2;
         Food.state := free;
         Food.heldBy := None;
         Food.mouthTimers := ∅ |} in
    Some ((k + 3)%nat,
          Room.set_foods (Room.foods room ++ [food])
            (Room.set_nextFoodId (Room.nextFoodId room + 1)%N room)).

Definition tipPosition (player : Player.t) : Vec.t :=
  Vec.mk (Player.x player + Math_cos (Player.angle player) * CHOPSTICK_LENGTH)
         (Player.y player + Math_sin (Player.angle player) * CHOPSTICK_LENGTH).

Definition mouthPosition (player : Player.t) : Vec.t :=
  let offsetY :=
    if decide (Player.side player = right) then MOUTH_OFFSET_Y_RIGHT
    else MOUTH_OFFSET_Y_LEFT in
  Vec.mk (Player.x player + MOUTH_OFFSET_X) (Player.y player - offsetY).

(** The distance from the tip to the food, and the angle between the
    facing direction and the food, as [isInCone] computes them. *)
Definition tip_distance (player : Player.t) (food : Food.t) : float :=
  let tip := tipPosition player in
  Math_hypot (Food.x food - Vec.x tip) (Food.y food - Vec.y tip).

Definition tip_deviation (fuel : nat) (player : Player.t) (food : Food.t)
  : option float :=
  let tip := tipPosition player in
  let dx := Food.x food - Vec.x tip in
  let dy := Food.y food - Vec.y tip in
  let angleToFood := Math_atan2 dy dx in
  abs <$> wrapAngle fuel (angleToFood - Player.angle player).

Definition isInCone (fuel : nat) (player : Player.t) (food : Food.t)
  : option bool :=
  let dist := tip_distance player food in
  if Js.gtb dist CONE_RADIUS then Some false
  else if dist <=? PICKUP_CLOSE_RADIUS then Some true
  else
    delta ← tip_deviation fuel player food;
    Some (delta <=? CONE_HALF_ANGLE).

(** [room.foods.find((food) => food.state === "free" && isInCone(player, food))]:
    the position of the first match, scanning from position [i]. *)
Fixpoint find_candidate (fuel : nat) (player : Player.t)
    (foods : list Food.t) (i : nat) : option (option nat) :=
  match foods with
  | [] => Some None
  | food :: rest =>
      if decide (Food.state food = free) then
        b ← isInCone fuel player food;
        if b : bool then Some (Some i)
        else find_candidate fuel player rest (S i)
      else find_candidate fuel player rest (S i)
  end.

(** [tryPickup(room, player)], [player] at position [i] of the room. *)
Definition tryPickup (fuel : nat) (i : nat) (room : Room.t)
  : option Room.t :=
  match Room.players room !! i with
  | None => Some room
  | Some player =>
      match Player.holding player with
      | Some _ => Some room
      | None =>
          c ← find_candidate fuel player (Room.foods room) 0;
          match c with
          | None => Some room
          | Some j =>
              match Room.foods room !! j with
              | None => Some room
              | Some candidate =>
                  let room :=
                    Room.alter_food
                      (λ f, Food.set_mouthTimers ∅
                              (Food.set_heldBy (Some (Player.id player))
                                 (Food.set_state held f))) j room in
                  Some (Room.alter_player
                          (Player.set_holdingFoodId (Some (Food.id candidate)))
                          i room)
              end
          end
      end
  end.

(** [releaseFood(room, player)] *)
Definition releaseFood (i : nat) (room : Room.t) : Room.t :=
  match Room.players room !! i with
  | None => room
  | Some player =>
      match Player.holding player with
      | None => room
      | Some fid =>
          match Room.food_index fid room with
          | None => Room.alter_player (Player.set_holdingFoodId None) i room
          | Some j =>
              let room :=
                Room.alter_food
                  (λ f, Food.set_vy (Math_sin (Player.angle player) * 60)
                          (Food.set_vx (Math_cos (Player.angle player) * 60)
                             (Food.set_heldBy None (Food.set_state free f))))
                  j room in
              Room.alter_player (Player.set_holdingFoodId None) i room
          end
      end
  end.

(** The body of the loop of [updateFoods], on one food, from the [k]-th
    random value on. *)
Definition updateFoods_body (dt : float) (k : nat) (food : Food.t)
  : nat * Food.t :=
  if decide (Food.state food = held) then (k, food)
  else
    let food := Food.set_vy (Food.vy food + GRAVITY * dt) food in
    let food := Food.set_x (Food.x food + Food.vx food * dt) food in
    let food := Food.set_y (Food.y food + Food.vy food * dt) food in
    if Js.gtb (Food.y food) (HEIGHT + 60) then
      let food := Food.set_x (80 + Math_random k * (WIDTH - 160)) food in
      let food := Food.set_y (-20) food in
      let food := Food.set_vx ((Math_random (k + 1) - 0.5) * 16) food in
      let food := Food.set_vy 0 food in
      ((k + 2)%nat, food)
    else (k, food).

Fixpoint updateFoods_loop (dt : float) (k : nat) (foods : list Food.t)
  : nat * list Food.t :=
  match foods with
  | [] => (k, [])
  | food :: rest =>
      let '(k1, food') := updateFoods_body dt k food in
      let '(k2, rest') := updateFoods_loop dt k1 rest in
      (k2, food' :: rest')
  end.

(** [updateFoods(room, dt)] *)
Definition updateFoods (dt : float) (k : nat) (room : Room.t)
  : nat * Room.t :=
  let '(k', foods) := updateFoods_loop dt k (Room.foods room) in
  (k', Room.set_foods foods room).

(** [for (const player of room.players.values()) body]: the body runs on
    each position of the map in turn. *)
Definition for_each_player (body : nat → Room.t → Room.t) (room : Room.t)
  : Room.t :=
  foldl (λ r i, body i r) room (seq 0 (length (Room.players room))).

Definition for_each_player_opt (body : nat → Room.t → option Room.t)
    (room : Room.t) : option Room.t :=
  foldl (λ o i, r ← o; body i r) (Some room)
        (seq 0 (length (Room.players room))).

(** The body of the loop of [updateHeldFoods]. *)
Definition updateHeldFoods_body (i : nat) (room : Room.t) : Room.t :=
  match Room.players room !! i with
  | None => room
  | Some player =>
      match Player.holding player with
      | None => room
      | Some fid =>
          match Room.food_index fid room with
          | None => Room.alter_player (Player.set_holdingFoodId None) i room
          | Some j =>
              let tip := tipPosition player in
              Room.alter_food
                (λ f,
                   let f := Food.set_x (Food.x f + (Vec.x tip - Food.x f) * 0.35) f in
                   let f := Food.set_y (Food.y f + (Vec.y tip - Food.y f) * 0.35) f in
                   Food.set_vy 0 (Food.set_vx 0 f))
                j room
          end
      end
  end.

(** [updateHeldFoods(room)] *)
Definition updateHeldFoods (room : Room.t) : Room.t :=
  for_each_player updateHeldFoods_body room.

(** What one run of the two loops of [handleEating] yields: the room
    when no dwell timer reached [EAT_TIME], or the room at the [return],
    with the positions of the eater and of the food it ate. *)
Inductive scan :=
| Next (room : Room.t)
| Eaten (room : Room.t) (eater : nat) (food : nat).

Definition scan_room (s : scan) : Room.t :=
  match s with Next room => room | Eaten room _ _ => room end.

(** The update of [food.mouthTimers[player.id]]. *)
Definition dwell (dt : float) (player : Player.t) (food : Food.t) : float :=
  let mouth := mouthPosition player in
  let dist :=
    Math_hypot (Food.x food - Vec.x mouth) (Food.y food - Vec.y mouth) in
  let inMouth := dist <=? MOUTH_RADIUS in
  if inMouth then
    match Food.mouthTimers food !! Player.id player with
    | Some t => Js.or t 0
    | None => 0
    end + dt
  else 0.

Definition touch (dt : float) (player : Player.t) (food : Food.t) : Food.t :=
  Food.set_mouthTimers
    (<[Player.id player := dwell dt player food]> (Food.mouthTimers food))
    food.

(** [food.mouthTimers[opponentId] >= EAT_TIME] *)
Definition timer_reached (pid : string) (food : Food.t) : bool :=
  match Food.mouthTimers food !! pid with
  | Some t => Js.geb t EAT_TIME
  | None => false
  end.

(** The branch of [handleEating] that consumes [food], at position [fi],
    for the player at position [pj]. *)
Definition consume (pj : nat) (food : Food.t) (room : Room.t) : Room.t :=
  let room :=
    Room.alter_player
      (λ eater,
         Player.set_mouthOpenUntil (Room.time room + 0.35)
           (Player.set_fullness (Player.fullness eater + Food.value food)
              eater))
      pj room in
  let room :=
    match Food.holder food with
    | Some h =>
        match Room.player_index h room with
        | Some hi => Room.alter_player (Player.set_holdingFoodId None) hi room
        | None => room
        end
    | None => room
    end in
  let room :=
    Room.set_foods
      (filter (λ f, Food.id f ≠ Food.id food) (Room.foods room)) room in
  match Room.players room !! pj with
  | None => room
  | Some eater =>
      if Js.geb (Player.fullness eater) MAX_FULLNESS then
        let room := Room.set_gameOver true room in
        let room := Room.set_loserId (Some (Player.id eater)) room in
        let opponent :=
          snd <$> list_find (λ p, Player.id p ≠ Player.id eater)
                            (Room.players room) in
        let room := Room.set_winnerId (Player.id <$> opponent) room in
        let room := Room.set_started false room in
        Room.set_players (Player.set_ready false <$> Room.players room) room
      else room
  end.

(** The inner loop, over the players at the positions [js]. *)
Fixpoint handleEating_players (dt : float) (fi : nat) (js : list nat)
    (room : Room.t) : scan :=
  match js with
  | [] => Next room
  | j :: js' =>
      match Room.foods room !! fi, Room.players room !! j with
      | Some food, Some player =>
          let room := Room.alter_food (touch dt player) fi room in
          let food := touch dt player food in
          if timer_reached (Player.id player) food
          then Eaten (consume j food room) j fi
          else handleEating_players dt fi js' room
      | _, _ => Next room
      end
  end.

(** The outer loop, over the foods at the positions [fis]. *)
Fixpoint handleEating_foods (dt : float) (fis : list nat) (room : Room.t)
  : scan :=
  match fis with
  | [] => Next room
  | fi :: fis' =>
      match handleEating_players dt fi
              (seq 0 (length (Room.players room))) room with
      | Next room => handleEating_foods dt fis' room
      | Eaten room j i => Eaten room j i
      end
  end.

Definition handleEating_scan (dt : float) (room : Room.t) : scan :=
  handleEating_foods dt (seq 0 (length (Room.foods room))) room.

(** [handleEating(room, dt)] *)
Definition handleEating (dt : float) (room : Room.t) : Room.t :=
  scan_room (handleEating_scan dt room).

(** The body of the loop of [updatePlayers]. *)
Definition updatePlayers_body (fuel : nat) (dt : float) (i : nat)
    (room : Room.t) : option Room.t :=
  match Room.players room !! i with
  | None => Some room
  | Some player =>
      let input := Player.input player in
      let move := normalize (Input.moveX input) (Input.moveY input) in
      let player :=
        Player.set_x (Player.x player + Vec.x move * MOVE_SPEED * dt) player in
      let player :=
        Player.set_y (Player.y player + Vec.y move * MOVE_SPEED * dt) player in
      let player := Player.set_x (clamp (Player.x player) 60 (WIDTH - 60)) player in
      let player := Player.set_y (clamp (Player.y player) 80 (HEIGHT - 60)) player in
      let player := Player.set_targetAngle (Input.aim input) player in
      a ← rotateTowards fuel (Player.angle player) (Player.targetAngle player)
            (MAX_ANGULAR_SPEED * dt);
      let player := Player.set_angle a player in
      let room := Room.alter_player (λ _, player) i room in
      let room := if Input.release input then releaseFood i room else room in
      Some (Room.alter_player
              (λ p, Player.set_input (Input.set_release false (Player.input p)) p)
              i room)
  end.

(** [updatePlayers(room, dt)] *)
Definition updatePlayers (fuel : nat) (dt : float) (room : Room.t)
  : option Room.t :=
  for_each_player_opt (updatePlayers_body fuel dt) room.

(** The end of [tick], after [handleEating]. *)
Definition tick_end (k : nat) (room : Room.t) : option (nat * Room.t) :=
  let room := Room.set_time (Room.time room + DT) room in
  let room := Room.set_lastSpawnTime (Room.lastSpawnTime room + DT) room in
  if Js.geb (Room.lastSpawnTime room) SPAWN_INTERVAL then
    spawnFood k (Room.set_lastSpawnTime 0 room)
  else Some (k, room).

(** [tick(room)], from the [k]-th random value on.  [None]: the call
    does not return (a loop of [wrapAngle] outlives the fuel, or
    [spawnFood] throws). *)
Definition tick (fuel : nat) (k : nat) (room : Room.t)
  : option (nat * Room.t) :=
  if negb (Room.started room) || Room.gameOver room then Some (k, room)
  else
    room ← updatePlayers fuel DT room;
    room ← for_each_player_opt (tryPickup fuel) room;
    let room := updateHeldFoods room in
    let '(k, room) := updateFoods DT k room in
    let room := handleEating DT room in
    tick_end k room.

(** [resetGameIfNeeded(room)] *)
Definition resetGameIfNeeded (room : Room.t) : Room.t :=
  if decide (length (Room.players room) < 2)%nat then
    let room := Room.set_gameOver false room in
    let room := Room.set_winnerId None room in
    let room := Room.set_loserId None room in
    let room := Room.set_time 0 room in
    let room := Room.set_started false room in
    let room := Room.set_foods [] room in
    let room := Room.set_nextFoodId 1 room in
    Room.set_players
      ((λ p, Player.set_holdingFoodId None (Player.set_ready false p))
         <$> Room.players room) room
  else room.

(** [assignSide(room)] *)
Definition assignSide (room : Room.t) : option Side :=
  let sides := Player.side <$> Room.players room in
  if decide (left ∈ sides) then
    if decide (right ∈ sides) then None else Some right
  else Some left.

(** [allReady(room)] *)
Definition allReady (room : Room.t) : bool :=
  if decide (length (Room.players room) < 2)%nat then false
  else forallb Player.ready (Room.players room).

(** The body of the loop of [startRoom]. *)
Definition startRoom_player (player : Player.t) : Player.t :=
  let player := Player.set_fullness 0 player in
  let player := Player.set_holdingFoodId None player in
  let player := Player.set_mouthOpenUntil 0 player in
  let input := Player.input player in
  let input := Input.set_moveX 0 input in
  let input := Input.set_moveY 0 input in
  let input := Input.set_release false input in
  if decide (Player.side player = left) then
    let player := Player.set_x 180 player in
    let player := Player.set_y (HEIGHT / 2) player in
    let player := Player.set_angle 0 player in
    let player := Player.set_targetAngle 0 player in
    Player.set_input (Input.set_aim 0 input) player
  else
    let player := Player.set_x (WIDTH - 180) player in
    let player := Player.set_y (HEIGHT / 2) player in
    let player := Player.set_angle Math_PI player in
    let player := Player.set_targetAngle Math_PI player in
    Player.set_input (Input.set_aim Math_PI input) player.

(** [startRoom(room)] *)
Definition startRoom (room : Room.t) : Room.t :=
  let room := Room.set_started true room in
  let room := Room.set_gameOver false room in
  let room := Room.set_winnerId None room in
  let room := Room.set_loserId None room in
  let room := Room.set_time 0 room in
  let room := Room.set_foods [] room in
  let room := Room.set_nextFoodId 1 room in
  let room := Room.set_lastSpawnTime 0 room in
  Room.set_players (startRoom_player <$> Room.players room) room.
End Simulation.

(** ** Messages and connections *)

(** The values [JSON.parse] yields, for the fields of a message.
    [JObject prim] is an object or an array, with the string its
    conversion to a primitive gives. *)
Inductive Json :=
| JUndefined
| JNull
| JBool (b : bool)
| JNumber (n : float)
| JString (s : string)
| JObject (prim : string).

(** A parsed message: [msg.type] is ["input"], ["ready"] or anything else.
    [move] is [None] when [msg.move] is [null] or [undefined]. *)
Inductive Msg :=
| MsgInput (move : option (Json * Json)) (aim : Json) (release : Json)
| MsgReady (ready : Json)
| MsgOther.

Module Conn.
(** What [rooms.get(roomId)] is, seen from one connection: the room of
    the connection, another room created later under the same id, or
    nothing. *)
Inductive Slot :=
| ThisRoom
| OtherRoom (r : Room.t)
| NoRoom.

(** The variables the handlers of one connection close over.  While
    [room.players] holds an entry under the id of [player], that entry is
    the player object; once it is deleted, [player] is the object. *)
Record t := mk {
  roomId : string;
  room : Room.t;
  slot : Slot;
  player : Player.t
}.
Definition set_room v c := mk (roomId c) v (slot c) (player c).
Definition set_slot v c := mk (roomId c) (room c) v (player c).
Definition set_player v c := mk (roomId c) (room c) (slot c) v.

(** The player object of the connection. *)
Definition self (c : t) : Player.t :=
  match Room.player_index (Player.id (player c)) (room c) with
  | Some i => default (player c) (Room.players (room c) !! i)
  | None => player c
  end.

(** A mutation of the player object of the connection. *)
Definition alter_self (f : Player.t → Player.t) (c : t) : t :=
  match Room.player_index (Player.id (player c)) (room c) with
  | Some i => set_room (Room.alter_player f i (room c)) c
  | None => set_player (f (player c)) c
  end.
End Conn.

Section Handlers.
Context {host : Host}.

(** [Number(v)] *)
Definition Number (v : Json) : float :=
  match v with
  | JUndefined => nan
  | JNull => 0
  | JBool b => if b then 1 else 0
  | JNumber n => n
  | JString s => StringToNumber s
  | JObject prim => StringToNumber prim
  end.

(** [Boolean(v)] *)
Definition Boolean (v : Json) : bool :=
  match v with
  | JUndefined | JNull => false
  | JBool b => b
  | JNumber n => Js.truthy n
  | JString s => if decide (s = ""%string) then false else true
  | JObject _ => true
  end.

(** The handler of ["message"], on a parsed message. *)
Definition on_message (msg : Msg) (c : Conn.t) : Conn.t :=
  match msg with
  | MsgInput move aim release =>
      if negb (Room.started (Conn.room c)) then c
      else
        Conn.alter_self
          (λ player,
             let input := Player.input player in
             let input :=
               Input.set_moveX
                 (Js.or (Number (from_option fst JUndefined move)) 0) input in
             let input :=
               Input.set_moveY
                 (Js.or (Number (from_option snd JUndefined move)) 0) input in
             let input :=
               Input.set_aim (Js.or (Number aim) (Input.aim input)) input in
             let input := Input.set_release (Boolean release) input in
             Player.set_input input player)
          c
  | MsgReady ready =>
      let c := Conn.alter_self (Player.set_ready (Boolean ready)) c in
      if allReady (Conn.room c) then Conn.set_room (startRoom (Conn.room c)) c
      else c
  | MsgOther => c
  end.

(** [room.players.set(player.id, player)]: a key that is there keeps its
    place. *)
Definition set_player (player : Player.t) (room : Room.t) : Room.t :=
  match Room.player_index (Player.id player) room with
  | Some i => Room.alter_player (λ _, player) i room
  | None => Room.set_players (Room.players room ++ [player]) room
  end.

(** The player object the handler of ["connection"] builds. *)
Definition new_player (pid : string) (side : Side) : Player.t :=
  {| Player.id := pid;
     Player.side := side;
     Player.x := if decide (side = left) then 180 else WIDTH - 180;
     Player.y := HEIGHT / 2;
     Player.angle := if decide (side = left) then 0 else Math_PI;
     Player.targetAngle := if decide (side = left) then 0 else Math_PI;
     Player.fullness := 0;
     Player.mouthOpenUntil := 0;
     Player.holdingFoodId := None;
     Player.ready := false;
     Player.input :=
       {| Input.moveX := 0; Input.moveY := 0;
          Input.aim := if decide (side = left) then 0 else Math_PI;
          Input.release := false |} |}.

(** The handler of ["connection"] for the room id [roomId], where
    [existing] is [rooms.get(roomId)] and [suffix] is the random part of
    the id of the player.  [None]: the connection is closed at once, the
    room being full. *)
Definition on_connection (roomId suffix : string) (existing : option Room.t)
  : option Conn.t :=
  let room := default (createRoom roomId) existing in
  if decide (2 ≤ length (Room.players room))%nat then None
  else
    side ← assignSide room;
    let player := new_player ("p_" +:+ suffix) side in
    let room := set_player player room in
    let room := resetGameIfNeeded room in
    Some (Conn.mk roomId room Conn.ThisRoom player).

(** [room.players.delete(id)] *)
Definition delete_player (pid : string) (room : Room.t) : Room.t :=
  Room.set_players
    (filter (λ p, Player.id p ≠ pid) (Room.players room)) room.

(** The [if (player.holdingFoodId)] of the handler of ["close"]. *)
Definition free_held (player : Player.t) (room : Room.t) : Room.t :=
  match Player.holding player with
  | None => room
  | Some fid =>
      match Room.food_index fid room with
      | Some j =>
          Room.alter_food
            (λ f, Food.set_heldBy None (Food.set_state free f)) j room
      | None => room
      end
  end.

(** The handler of ["close"]. *)
Definition on_close (c : Conn.t) : Conn.t :=
  let player := Conn.self c in
  let c := Conn.set_player player c in
  let room := delete_player (Player.id player) (Conn.room c) in
  let room := free_held player room in
  let room := resetGameIfNeeded room in
  let c := Conn.set_room room c in
  if decide (length (Room.players room) = 0%nat)
  then Conn.set_slot Conn.NoRoom c
  else c.
End Handlers.

(** ** A host to run the model on

    [Math.hypot], [Math.cos], [Math.sin] and [Math.atan2] are
    implementation-approximated in ECMAScript.  This host computes them
    with square roots and truncated power series; it is exact where the
    examples below need it (on the axes). *)

Module SampleHost.

Definition hypot (x y : float) : float := sqrt (x * x + y * y).

(** [sum_{n ≤ terms} (-1)^n x^(2n+s) / (2n+s)!], from the term [t] of
    rank [n] on. *)
Fixpoint series (terms : nat) (x2 t n acc : float) : float :=
  match terms with
  | O => acc
  | S terms' =>
      let t' := - t * x2 / ((n + 1) * (n + 2)) in
      series terms' x2 t' (n + 2) (acc + t)
  end.

Definition sin (x : float) : float := series 16 (x * x) x 1 0.
Definition cos (x : float) : float := series 16 (x * x) 1 0 0.

Fixpoint atan_series (terms : nat) (x2 t n acc : float) : float :=
  match terms with
  | O => acc
  | S terms' => atan_series terms' x2 (- t * x2) (n + 2) (acc + t / n)
  end.

(** [atan], halving the angle three times before the series. *)
Definition atan (x : float) : float :=
  let half z := z / (1 + sqrt (1 + z * z)) in
  let z := half (half (half x)) in
  8 * atan_series 12 (z * z) z 1 0.

Definition atan2 (y x : float) : float :=
  if 0 <? x then atan (y / x)
  else if x <? 0 then
    if y <? 0 then atan (y / x) - Math_PI else atan (y / x) + Math_PI
  else if 0 <? y then Math_PI / 2
  else if y <? 0 then - (Math_PI / 2)
  else 0.

Definition of_Z (z : Z) : float := of_uint63 (Uint63.of_Z z).

(** A fixed sequence of values in [[0, 1)]. *)
Definition random (k : nat) : float :=
  of_Z ((Z.of_nat k * 2654435761 + 12345) mod 4294967296) / 4294967296.

(** Decimal digits only; the empty string is [0], the rest is [NaN]. *)
Fixpoint digits (s : string) (acc : float) : float :=
  match s with
  | EmptyString => acc
  | String c rest =>
      let d := (Z.of_nat (Ascii.nat_of_ascii c) - 48)%Z in
      if decide (0 ≤ d ≤ 9)%Z then digits rest (acc * 10 + of_Z d)
      else nan
  end.

#[export] Instance host : Host := {|
  Math_hypot := hypot;
  Math_cos := cos;
  Math_sin := sin;
  Math_atan2 := atan2;
  Math_random := random;
  StringToNumber := λ s, digits s 0
|}.

End SampleHost.


(** ** Rooms to run the model on *)

Module Sample.

Definition lefty : Player.t :=
  {| Player.id := "p_left"; Player.side := left;
     Player.x := 180; Player.y := 270;
     Player.angle := 0; Player.targetAngle := 0;
     Player.fullness := 42; Player.mouthOpenUntil := 0;
     Player.holdingFoodId := None; Player.ready := true;
     Player.input := Input.mk 0 0 0 false |}.

Definition righty : Player.t :=
  {| Player.id := "p_right"; Player.side := right;
     Player.x := 780; Player.y := 270;
     Player.angle := Math_PI; Player.targetAngle := Math_PI;
     Player.fullness := 96; Player.mouthOpenUntil := 0;
     Player.holdingFoodId := None; Player.ready := true;
     Player.input := Input.mk 0 0 Math_PI false |}.

(** A free food in front of the chopsticks of [lefty]. *)
Definition rice : Food.t :=
  {| Food.id := 1; Food.x := 400; Food.y := 270; Food.vx := 0; Food.vy := 0;
     Food.value := 6; Food.state := free; Food.heldBy := None;
     Food.mouthTimers := ∅ |}.

(** A running match. *)
Definition running : Room.t :=
  {| Room.id := "lobby"; Room.players := [lefty; righty];
     Room.foods := [rice]; Room.nextFoodId := 2;
     Room.lastSpawnTime := 0.5; Room.time := 5;
     Room.gameOver := false; Room.winnerId := None; Room.loserId := None;
     Room.started := true |}.

(** The connections of the two players of [running]. *)
Definition conn_left : Conn.t :=
  {| Conn.roomId := "lobby"; Conn.room := running;
     Conn.slot := Conn.ThisRoom; Conn.player := lefty |}.


(** Two players in a room that is not started; only [lefty] is ready. *)
Definition waiting : Room.t :=
  {| Room.id := "lobby";
     Room.players := [lefty; Player.set_ready false righty];
     Room.foods := []; Room.nextFoodId := 1;
     Room.lastSpawnTime := 0; Room.time := 0;
     Room.gameOver := false; Room.winnerId := None; Room.loserId := None;
     Room.started := false |}.

Definition conn_waiting_right : Conn.t :=
  {| Conn.roomId := "lobby"; Conn.room := waiting;
     Conn.slot := Conn.ThisRoom; Conn.player := Player.set_ready false righty |}.

(** [lefty] holds the id of a food that is not in the room. *)
Definition stale : Room.t :=
  Room.set_players
    [Player.set_holdingFoodId (Some 7%N) lefty; righty] running.

(** A free food that falls out of the field in the next update. *)
Definition falling : Food.t :=
  {| Food.id := 2; Food.x := 300; Food.y := 599.5; Food.vx := 3;
     Food.vy := 120; Food.value := 9; Food.state := free;
     Food.heldBy := None; Food.mouthTimers := ∅ |}.

Definition raining : Room.t := Room.set_foods [rice; falling] running.

(** A food that has spent 0.39 s in the mouth of [righty], who is at
    fullness 96. *)
Definition dumpling : Food.t :=
  {| Food.id := 3; Food.x := 780; Food.y := 203; Food.vx := 0; Food.vy := 0;
     Food.value := 6; Food.state := free; Food.heldBy := None;
     Food.mouthTimers := {[ "p_right"%string := 0.39 ]} |}.

Definition feast : Room.t := Room.set_foods [dumpling] running.

(** [righty] after that food. *)
Definition stuffed : Player.t :=
  Player.set_ready false
    (Player.set_mouthOpenUntil (5 + 0.35)
       (Player.set_fullness (96 + 6) righty)).

(** Two foods that have both spent 0.39 s in the mouth of [righty]. *)
Definition bun : Food.t :=
  {| Food.id := 4; Food.x := 781; Food.y := 204; Food.vx := 0; Food.vy := 0;
     Food.value := 7; Food.state := free; Food.heldBy := None;
     Food.mouthTimers := {[ "p_right"%string := 0.39 ]} |}.

Definition banquet : Room.t := Room.set_foods [rice; dumpling; bun] running.





End Sample.

(** * The vocabulary of the properties *)

(** ** Outcomes of the simulation step *)

Section Vocabulary.
Context {host : Host}.

(** The room is finished, [eater] has lost. *)
Definition lost (eater : Player.t) (room : Room.t) : Prop :=
  Room.gameOver room = true
  ∧ Room.started room = false
  ∧ Room.loserId room = Some (Player.id eater)
  ∧ match Room.winnerId room with
    | Some w =>
        w ≠ Player.id eater ∧ ∃ p, p ∈ Room.players room ∧ Player.id p = w
    | None => ∀ p, p ∈ Room.players room → Player.id p = Player.id eater
    end
  ∧ ∀ p, p ∈ Room.players room → Player.ready p = false.

(** [food] has been in the mouth of one of [players] for [EAT_TIME], the
    dwell timers being advanced by [dt]. *)
Definition reached (dt : float) (players : list Player.t) (food : Food.t)
  : Prop :=
  Exists (λ p, Js.geb (dwell dt p food) EAT_TIME = true) players.

#[global] Instance reached_dec dt players food :
  Decision (reached dt players food).
Proof. unfold reached. apply _. Defined.

(** The first food, in the order of [room.foods], that some player has
    had in its mouth for [EAT_TIME]. *)
Definition first_reached (dt : float) (room : Room.t) : option nat :=
  fst <$> list_find (reached dt (Room.players room)) (Room.foods room).

(** [f] is [f0] but for the dwell timers of [ids]. *)
Definition touched_by (ids : list string) (f f0 : Food.t) : Prop :=
  Food.id f = Food.id f0 ∧ Food.x f = Food.x f0 ∧ Food.y f = Food.y f0
  ∧ ∀ k, k ∉ ids → Food.mouthTimers f !! k = Food.mouthTimers f0 !! k.

(** What a scan that started in [room0] has kept of it. *)
Definition scanning (room0 room : Room.t) : Prop :=
  Room.players room = Room.players room0
  ∧ Food.id <$> Room.foods room = Food.id <$> Room.foods room0.

(** [food] is free and within the cone radius of the tip of the
    chopsticks of [player], and either within the point-blank radius or
    within the half angle of the cone around the facing angle. *)
Definition within_reach (fuel : nat) (player : Player.t) (food : Food.t)
  : Prop :=
  Food.state food = free
  ∧ (tip_distance player food <=? CONE_RADIUS) = true
  ∧ ((tip_distance player food <=? PICKUP_CLOSE_RADIUS) = true
     ∨ ∃ δ, tip_deviation fuel player food = Some δ
            ∧ (δ <=? CONE_HALF_ANGLE) = true).

#[global] Instance within_reach_dec fuel player food :
  Decision (within_reach fuel player food).
Proof.
  unfold within_reach.
  destruct (tip_deviation fuel player food) as [δ|].
  - destruct (decide (Food.state food = free)); [|right; tauto].
    destruct (tip_distance player food <=? CONE_RADIUS);
      [|right; by intros (_ & ? & _)].
    destruct (tip_distance player food <=? PICKUP_CLOSE_RADIUS);
      [left; tauto|].
    destruct (δ <=? CONE_HALF_ANGLE) eqn:E; [left; eauto 10|].
    right. intros (_ & _ & [|(δ' & [= <-] & ?)]); congruence.
  - destruct (decide (Food.state food = free)); [|right; tauto].
    destruct (tip_distance player food <=? CONE_RADIUS);
      [|right; by intros (_ & ? & _)].
    destruct (tip_distance player food <=? PICKUP_CLOSE_RADIUS);
      [left; tauto|].
    right. intros (_ & _ & [|(δ' & [=] & ?)]); congruence.
Defined.



(** The parts of a room that [updateHeldFoods] never writes. *)
Definition held_frame (r : Room.t) :=
  (Room.id r, Food.id <$> Room.foods r, Room.nextFoodId r,
   Room.lastSpawnTime r, Room.time r, Room.gameOver r, Room.winnerId r,
   Room.loserId r, Room.started r, length (Room.players r)).

End Vocabulary.

(** The room once the player [me] has left it. *)
Definition room_after_leave (me : Player.t) (r : Room.t) : Room.t :=
  resetGameIfNeeded (free_held me (delete_player (Player.id me) r)).

(** ** Well-formed rooms

    The ids of the players are the keys of a [Map], the sides are handed
    out by [assignSide], and the ids of the foods are counted by
    [nextFoodId]: in every room the server builds they are pairwise
    different, which the theorems on eating and leaving assume. *)

Definition player_key (p : Player.t) : string * Side :=
  (Player.id p, Player.side p).

(** The identities in a room: who is there, which foods, and the counter. *)
Definition identities (r : Room.t) :=
  (player_key <$> Room.players r, Food.id <$> Room.foods r,
   Room.nextFoodId r).

Definition well_formed (r : Room.t) : Prop :=
  NoDup (Player.id <$> Room.players r)
  ∧ NoDup (Player.side <$> Room.players r)
  ∧ NoDup (Food.id <$> Room.foods r)
  ∧ Forall (λ i, (i < Room.nextFoodId r)%N) (Food.id <$> Room.foods r).

(** What a scan does to the identities. *)
Definition scanned (r : Room.t) (s : scan) : Prop :=
  match s with
  | Next r' => identities r' = identities r
  | Eaten r' _ _ =>
      ∃ k, identities r'
           = (player_key <$> Room.players r,
              filter (λ i, i ≠ k) (Food.id <$> Room.foods r),
              Room.nextFoodId r)
  end.

(** * Properties *)

(** Unfolds the setters and the projections of rooms. *)
Ltac room_fields :=
  cbv beta iota delta
    [Room.set_players Room.set_foods Room.set_nextFoodId
     Room.set_lastSpawnTime Room.set_time Room.set_gameOver
     Room.set_winnerId Room.set_loserId Room.set_started
     Room.alter_player Room.alter_food
     Room.id Room.players Room.foods Room.nextFoodId Room.lastSpawnTime
     Room.time Room.gameOver Room.winnerId Room.loserId Room.started].


(** ** Comparisons of binary64 numbers *)

Module FloatOrder.

(** A number that is not [NaN], as a point of a lexicographic order:
    the sign and class first, then the exponent, then the mantissa. *)
Definition key (x : spec_float) : Z * Z * Z :=
  match x with
  | S754_zero _ | S754_nan => (0, 0, 0)%Z
  | S754_infinity s => (if s then -2 else 2, 0, 0)%Z
  | S754_finite s m e =>
      if s then (-1, - e, Z.neg m)%Z else (1, e, Z.pos m)%Z
  end.

Definition lex (a b : Z * Z * Z) : comparison :=
  match (a.1.1 ?= b.1.1)%Z with
  | Eq => match (a.1.2 ?= b.1.2)%Z with
          | Eq => (a.2 ?= b.2)%Z
          | c => c
          end
  | c => c
  end.

Lemma SFcompare_key (x y : spec_float) :
  x ≠ S754_nan → y ≠ S754_nan → SFcompare x y = Some (lex (key x) (key y)).
Proof.
  intros Hx Hy.
  destruct x as [[]|[]| |[] m1 e1], y as [[]|[]| |[] m2 e2]; try done.
  unfold SFcompare, key, lex. cbn [fst snd].
  rewrite Z.compare_refl, Z.compare_opp, (Z.compare_antisym e1 e2).
  by destruct (e1 ?= e2)%Z.
Qed.

Lemma lex_spec (a b : Z * Z * Z) :
  let lt := (a.1.1 < b.1.1 ∨ a.1.1 = b.1.1 ∧
             (a.1.2 < b.1.2 ∨ a.1.2 = b.1.2 ∧ a.2 < b.2))%Z in
  match lex a b with
  | Lt => lt
  | Eq => a = b
  | Gt => ¬ lt ∧ a ≠ b
  end.
Proof.
  destruct a as [[a1 a2] a3], b as [[b1 b2] b3]. unfold lex. cbn.
  destruct (Z.compare_spec a1 b1), (Z.compare_spec a2 b2),
    (Z.compare_spec a3 b3); subst; try (split; [lia|congruence]); try lia;
    try done.
  all: split; [lia|intros [=]; lia].
Qed.

Lemma lex_refl (a : Z * Z * Z) : lex a a = Eq.
Proof. unfold lex. by rewrite !Z.compare_refl. Qed.

Lemma not_nan (a : float) : is_nan a = false ↔ Prim2SF a ≠ S754_nan.
Proof.
  unfold is_nan. rewrite FloatAxioms.eqb_spec. unfold SFeqb.
  destruct (Prim2SF a) as [[]|[]| |[] m e]; cbn; try done.
  all: rewrite ?Z.compare_refl, ?Pos.compare_cont_refl; cbn; try done.
Qed.

Lemma leb_lex (a b : float) :
  is_nan a = false → is_nan b = false →
  (a <=? b) = true ↔ lex (key (Prim2SF a)) (key (Prim2SF b)) ≠ Gt.
Proof.
  intros Ha%not_nan Hb%not_nan. rewrite FloatAxioms.leb_spec. unfold SFleb.
  rewrite SFcompare_key by done. by destruct (lex _ _).
Qed.

Lemma ltb_lex (a b : float) :
  is_nan a = false → is_nan b = false →
  (a <? b) = true ↔ lex (key (Prim2SF a)) (key (Prim2SF b)) = Lt.
Proof.
  intros Ha%not_nan Hb%not_nan. rewrite FloatAxioms.ltb_spec. unfold SFltb.
  rewrite SFcompare_key by done. by destruct (lex _ _).
Qed.

(** A comparison that holds is a comparison of numbers. *)
Lemma leb_not_nan (a b : float) :
  (a <=? b) = true → is_nan a = false ∧ is_nan b = false.
Proof.
  rewrite FloatAxioms.leb_spec, !not_nan. unfold SFleb.
  destruct (Prim2SF a) as [[]|[]| |[] ? ?], (Prim2SF b) as [[]|[]| |[] ? ?];
    cbn; done.
Qed.

Lemma ltb_not_nan (a b : float) :
  (a <? b) = true → is_nan a = false ∧ is_nan b = false.
Proof.
  rewrite FloatAxioms.ltb_spec, !not_nan. unfold SFltb.
  destruct (Prim2SF a) as [[]|[]| |[] ? ?], (Prim2SF b) as [[]|[]| |[] ? ?];
    cbn; done.
Qed.

Lemma le_refl (a : float) : is_nan a = false → (a <=? a) = true.
Proof. intros Ha. apply leb_lex; [done..|]. by rewrite lex_refl. Qed.

Lemma le_trans (a b c : float) :
  (a <=? b) = true → (b <=? c) = true → (a <=? c) = true.
Proof.
  intros Hab Hbc.
  destruct (leb_not_nan _ _ Hab) as [Ha Hb].
  destruct (leb_not_nan _ _ Hbc) as [_ Hc].
  apply leb_lex in Hab, Hbc; try done. apply leb_lex; [done..|].
  pose proof (lex_spec (key (Prim2SF a)) (key (Prim2SF b))) as H1.
  pose proof (lex_spec (key (Prim2SF b)) (key (Prim2SF c))) as H2.
  pose proof (lex_spec (key (Prim2SF a)) (key (Prim2SF c))) as H3.
  destruct (key (Prim2SF a)) as [[a1 a2] a3], (key (Prim2SF b)) as [[b1 b2] b3],
    (key (Prim2SF c)) as [[c1 c2] c3].
  cbn [fst snd] in *.
  destruct (lex (a1, a2, a3) (b1, b2, b3)), (lex (b1, b2, b3) (c1, c2, c3)),
    (lex (a1, a2, a3) (c1, c2, c3));
    try done; simplify_eq; exfalso; destruct H3 as [H3 H3']; try done;
    try lia; try (apply H3; lia).
Qed.

Lemma lt_le (a b : float) : (a <? b) = true → (a <=? b) = true.
Proof.
  intros Hlt. destruct (ltb_not_nan _ _ Hlt) as [Ha Hb].
  apply ltb_lex in Hlt; [|done..]. apply leb_lex; [done..|]. by rewrite Hlt.
Qed.

(** The order is total on numbers. *)
Lemma not_lt_ge (a b : float) :
  is_nan a = false → is_nan b = false →
  (a <? b) = false → (b <=? a) = true.
Proof.
  intros Ha Hb Hlt. apply leb_lex; [done..|]. intros Hgt.
  assert ((a <? b) = true); [|congruence].
  apply ltb_lex; [done..|].
  pose proof (lex_spec (key (Prim2SF a)) (key (Prim2SF b))) as H1.
  pose proof (lex_spec (key (Prim2SF b)) (key (Prim2SF a))) as H2.
  rewrite Hgt in H2.
  destruct (key (Prim2SF a)) as [[a1 a2] a3], (key (Prim2SF b)) as [[b1 b2] b3].
  cbn [fst snd] in *.
  destruct (lex (a1, a2, a3) (b1, b2, b3)); [| done |].
  - simplify_eq. by destruct H2.
  - destruct H1 as [H1 _], H2 as [H2 H2']. exfalso.
    assert (a1 = b1 ∧ a2 = b2 ∧ a3 = b3) as (-> & -> & ->) by lia. done.
Qed.



(** [-m <= m] and [-m <= 0] for [m >= 0]. *)
Lemma opp_le (m : float) : (0 <=? m) = true → (- m <=? m) = true.
Proof.
  rewrite !FloatAxioms.leb_spec, FloatAxioms.opp_spec. unfold SFleb.
  change (Prim2SF 0) with (S754_zero false).
  destruct (Prim2SF m) as [[]|[]| |[] ? ?]; cbn; try done.
  all: rewrite Z.compare_refl, Pos.compare_cont_refl; done.
Qed.

Lemma opp_le_0 (m : float) : (0 <=? m) = true → (- m <=? 0) = true.
Proof.
  rewrite !FloatAxioms.leb_spec, FloatAxioms.opp_spec. unfold SFleb.
  change (Prim2SF 0) with (S754_zero false).
  destruct (Prim2SF m) as [[]|[]| |[] ? ?]; cbn; done.
Qed.

(** [Math.min] of two numbers is one of them, below both. *)
Lemma min_spec (a b : float) :
  is_nan a = false → is_nan b = false →
  (Js.min a b <=? a) = true ∧ (Js.min a b <=? b) = true
  ∧ (Js.min a b = a ∨ Js.min a b = b).
Proof.
  intros Ha Hb. unfold Js.min. rewrite Ha, Hb. cbn [orb].
  destruct (a <? b) eqn:Hab.
  { split; [by apply le_refl|]. split; [by apply lt_le|by left]. }
  destruct (b <? a) eqn:Hba.
  { split; [by apply lt_le|]. split; [by apply le_refl|by right]. }
  pose proof (not_lt_ge a b Ha Hb Hab). pose proof (not_lt_ge b a Hb Ha Hba).
  destruct (is_zero a && get_sign b).
  - split; [done|]. split; [by apply le_refl|by right].
  - split; [by apply le_refl|]. split; [done|by left].
Qed.

(** [Math.max] of two numbers is one of them, above both. *)
Lemma max_spec (a b : float) :
  is_nan a = false → is_nan b = false →
  (a <=? Js.max a b) = true ∧ (b <=? Js.max a b) = true
  ∧ (Js.max a b = a ∨ Js.max a b = b).
Proof.
  intros Ha Hb. unfold Js.max. rewrite Ha, Hb. cbn [orb].
  destruct (a <? b) eqn:Hab.
  { split; [by apply lt_le|]. split; [by apply le_refl|by right]. }
  destruct (b <? a) eqn:Hba.
  { split; [by apply le_refl|]. split; [by apply lt_le|by left]. }
  pose proof (not_lt_ge a b Ha Hb Hab). pose proof (not_lt_ge b a Hb Ha Hba).
  destruct (is_zero a && get_sign a).
  - split; [done|]. split; [by apply le_refl|by right].
  - split; [by apply le_refl|]. split; [done|by left].
Qed.

End FloatOrder.

(** [clamp] puts a number between its bounds. *)
Lemma clamp_bounds (value lo hi : float) :
  is_nan value = false → (lo <=? hi) = true →
  (lo <=? clamp value lo hi) = true ∧ (clamp value lo hi <=? hi) = true.
Proof.
  intros Hv Hle. destruct (FloatOrder.leb_not_nan _ _ Hle) as [Hlo Hhi].
  unfold clamp.
  destruct (FloatOrder.min_spec hi value Hhi Hv) as (Hmin & _ & Hcases).
  destruct (FloatOrder.leb_not_nan _ _ Hmin) as [Hx _].
  destruct (FloatOrder.max_spec lo _ Hlo Hx) as (Hmax & _ & Hc).
  split; [done|]. by destruct Hc as [-> | ->].
Qed.

(** ** Angles *)

Lemma wrapAngle_up_skip (fuel : nat) (a : float) :
  (a <=? - Math_PI) = false → wrapAngle_up fuel a = Some a.
Proof. intros E. destruct fuel; cbn [wrapAngle_up wrapAngle_down mbind option_bind]; by rewrite E. Qed.

Lemma wrapAngle_down_skip (fuel : nat) (a : float) :
  Js.gtb a Math_PI = false → wrapAngle_down fuel a = Some a.
Proof. intros E. destruct fuel; cbn [wrapAngle_up wrapAngle_down mbind option_bind]; by rewrite E. Qed.

Lemma wrapAngle_up_fuel (n m : nat) (a r : float) :
  (n ≤ m)%nat → wrapAngle_up n a = Some r → wrapAngle_up m a = Some r.
Proof.
  revert m a. induction n as [|n IH]; intros m a Hle; cbn [wrapAngle_up wrapAngle_down mbind option_bind].
  - destruct (a <=? - Math_PI) eqn:E; [done|].
    intros [= <-]. by apply wrapAngle_up_skip.
  - destruct (a <=? - Math_PI) eqn:E.
    + destruct m as [|m]; [lia|]. cbn [wrapAngle_up wrapAngle_down mbind option_bind]. rewrite E. apply IH. lia.
    + intros [= <-]. by apply wrapAngle_up_skip.
Qed.

Lemma wrapAngle_down_fuel (n m : nat) (a r : float) :
  (n ≤ m)%nat → wrapAngle_down n a = Some r → wrapAngle_down m a = Some r.
Proof.
  revert m a. induction n as [|n IH]; intros m a Hle; cbn [wrapAngle_up wrapAngle_down mbind option_bind].
  - destruct (Js.gtb a Math_PI) eqn:E; [done|].
    intros [= <-]. by apply wrapAngle_down_skip.
  - destruct (Js.gtb a Math_PI) eqn:E.
    + destruct m as [|m]; [lia|]. cbn [wrapAngle_up wrapAngle_down mbind option_bind]. rewrite E. apply IH. lia.
    + intros [= <-]. by apply wrapAngle_down_skip.
Qed.

(** More fuel does not change a result. *)
Lemma wrapAngle_fuel (n m : nat) (a r : float) :
  (n ≤ m)%nat → wrapAngle n a = Some r → wrapAngle m a = Some r.
Proof.
  intros Hle. unfold wrapAngle.
  destruct (wrapAngle_up n a) as [a1|] eqn:E; cbn [wrapAngle_up wrapAngle_down mbind option_bind]; [|done].
  rewrite (wrapAngle_up_fuel n m a a1 Hle E). cbn [wrapAngle_up wrapAngle_down mbind option_bind].
  by apply wrapAngle_down_fuel.
Qed.

(** What the loops guarantee at their exits. *)
Lemma wrapAngle_down_exit (fuel : nat) (a r : float) :
  wrapAngle_down fuel a = Some r → Js.gtb r Math_PI = false.
Proof.
  revert a. induction fuel as [|n IH]; intros a; cbn [wrapAngle_up wrapAngle_down mbind option_bind];
    destruct (Js.gtb a Math_PI) eqn:E; try done; eauto.
  all: by intros [= <-].
Qed.

Lemma wrapAngle_not_above (fuel : nat) (a r : float) :
  wrapAngle fuel a = Some r → Js.gtb r Math_PI = false.
Proof.
  unfold wrapAngle. destruct (wrapAngle_up fuel a); cbn [wrapAngle_up wrapAngle_down mbind option_bind]; [|done].
  apply wrapAngle_down_exit.
Qed.

(** A loop whose step leaves [a] where it is never ends. *)
Lemma wrapAngle_down_stuck (fuel : nat) (a : float) :
  Js.gtb a Math_PI = true → a - Math_PI * 2 = a →
  wrapAngle_down fuel a = None.
Proof.
  intros Hgt Hfix. induction fuel as [|n IH]; cbn [wrapAngle_up wrapAngle_down mbind option_bind]; rewrite Hgt; [done|].
  by rewrite Hfix.
Qed.


(** One tick of rotation from the spawn angle of the left player towards
    the spawn angle of the right one. *)
Example rotateTowards_step :
  rotateTowards 1 0 Math_PI (MAX_ANGULAR_SPEED * DT) = Some (MAX_ANGULAR_SPEED * DT).
Proof. reflexivity. Qed.

(** Across the cut at [±π], the short way round. *)
Example rotateTowards_across :
  rotateTowards 1 3.1 (-3.1) (MAX_ANGULAR_SPEED * DT) = Some (-3.108185307179586).
Proof. reflexivity. Qed.

(** The step taken is the wrapped difference cut to [±maxDelta]: never
    past the target, never the other way. *)
Lemma clamp_towards (delta maxDelta : float) :
  (0 <=? maxDelta) = true →
  let step := clamp delta (- maxDelta) maxDelta in
  ((0 <=? delta) = true → (0 <=? step) = true ∧ (step <=? delta) = true)
  ∧ ((delta <=? 0) = true → (delta <=? step) = true ∧ (step <=? 0) = true).
Proof.
  intros Hm step. subst step. unfold clamp.
  pose proof (FloatOrder.opp_le _ Hm) as Hopp.
  pose proof (FloatOrder.opp_le_0 _ Hm) as Hopp0.
  destruct (FloatOrder.leb_not_nan _ _ Hopp) as [Hn Hp].
  split; intros Hd.
  - destruct (FloatOrder.leb_not_nan _ _ Hd) as [_ Hdn].
    destruct (FloatOrder.min_spec maxDelta delta Hp Hdn) as (_ & Hxd & Hx).
    destruct (FloatOrder.leb_not_nan _ _ Hxd) as [Hxn _].
    assert ((0 <=? Js.min maxDelta delta) = true) as H0x
      by (by destruct Hx as [-> | ->]).
    destruct (FloatOrder.max_spec (- maxDelta) _ Hn Hxn) as (_ & Hge & Hc).
    split; [by eapply FloatOrder.le_trans|].
    destruct Hc as [-> | ->]; [by eapply FloatOrder.le_trans|done].
  - destruct (FloatOrder.leb_not_nan _ _ Hd) as [Hdn _].
    destruct (FloatOrder.min_spec maxDelta delta Hp Hdn) as (_ & Hxd & Hx).
    destruct (FloatOrder.leb_not_nan _ _ Hxd) as [Hxn _].
    assert ((delta <=? Js.min maxDelta delta) = true) as Hdx.
    { destruct Hx as [-> | ->]; [by eapply FloatOrder.le_trans|].
      by apply FloatOrder.le_refl. }
    destruct (FloatOrder.max_spec (- maxDelta) _ Hn Hxn) as (_ & Hge & Hc).
    split; [by eapply FloatOrder.le_trans|].
    destruct Hc as [-> | ->]; [done|].
    by apply (FloatOrder.le_trans _ delta).
Qed.

(** When [rotateTowards] returns, it has turned by a step within
    [±maxDelta] and wrapped the sum, which is not above [π]. *)
Lemma rotateTowards_returns (fuel : nat) (current target maxDelta r : float) :
  (0 <=? maxDelta) = true →
  rotateTowards fuel current target maxDelta = Some r →
  ∃ delta,
    wrapAngle fuel (target - current) = Some delta
    ∧ let step := clamp delta (- maxDelta) maxDelta in
      wrapAngle fuel (current + step) = Some r
      ∧ Js.gtb r Math_PI = false
      ∧ (is_nan delta = false →
         (- maxDelta <=? step) = true ∧ (step <=? maxDelta) = true).
Proof.
  intros Hm. unfold rotateTowards.
  destruct (wrapAngle fuel (target - current)) as [delta|]; [|done].
  cbn [mbind option_bind]. intros Hr. exists delta. split; [done|].
  cbn zeta. split; [done|]. split; [by eapply wrapAngle_not_above|].
  intros Hd. apply clamp_bounds; [done|]. by apply FloatOrder.opp_le.
Qed.

(** A difference of angles too large for [a - 2π] to differ from [a]:
    [rotateTowards] does not return. *)
Lemma rotateTowards_stuck (fuel : nat) (current target maxDelta : float) :
  (target - current <=? - Math_PI) = false →
  Js.gtb (target - current) Math_PI = true →
  target - current - Math_PI * 2 = target - current →
  rotateTowards fuel current target maxDelta = None.
Proof.
  intros Hup Hdown Hfix. unfold rotateTowards, wrapAngle.
  rewrite wrapAngle_up_skip by done. cbn [mbind option_bind].
  by rewrite wrapAngle_down_stuck.
Qed.

(** C6, at the input [rotateTowards(0, 1e300, MAX_ANGULAR_SPEED * DT)]:
    the player faces angle [0] and the latest aim is the finite number
    [1e300].  [wrapAngle] subtracts [2π] from [1e300] and gets [1e300]
    again, so its second loop never ends: for every amount of fuel the
    call does not return, where the claim promises an angle in (-π, π]
    within [maxDelta] of [current]. *)
Theorem rotateTowards_huge_target_diverges (fuel : nat) :
  rotateTowards fuel 0 1e300 (MAX_ANGULAR_SPEED * DT) = None.
Proof. apply rotateTowards_stuck; reflexivity. Qed.

(** ** Lists addressed by position and by key *)

Section ListFacts.
Context {A : Type} (P : A → Prop) `{!∀ x, Decision (P x)}.

(** A mutation that keeps the key keeps the positions of the keys. *)
Lemma list_find_alter_pos (f : A → A) (i : nat) (l : list A) :
  (∀ x, P (f x) ↔ P x) →
  fst <$> list_find P (alter f i l) = fst <$> list_find P l.
Proof.
  intros Hf. revert i. induction l as [|x l IH]; intros [|i]; try done.
  - cbn. destruct (decide (P (f x))) as [Hy|Hn], (decide (P x)) as [Hx|Hx];
      try done; exfalso; [apply Hx, Hf, Hy|apply Hn, Hf, Hx].
  - cbn. destruct (decide (P x)); [done|].
    specialize (IH i). cbn in IH.
    destruct (list_find P (alter f i l)) as [[]|],
             (list_find P l) as [[]|]; simplify_eq/=; done.
Qed.

Lemma list_find_pos_lookup (l : list A) (i : nat) :
  fst <$> list_find P l = Some i → ∃ x, l !! i = Some x ∧ P x.
Proof.
  destruct (list_find P l) as [[j x]|] eqn:E; [|done].
  intros [= <-]. apply list_find_Some in E as (Hx & HP & _). eauto.
Qed.

End ListFacts.

(** The position of a key depends on the keys only. *)
Lemma list_find_key_pos {A K : Type} (key : A → K) (P : K → Prop)
    `{HP : !∀ k, Decision (P k)} `{HQ : !∀ x, Decision (P (key x))}
    (l : list A) :
  fst <$> list_find (λ x, P (key x)) l = fst <$> list_find P (key <$> l).
Proof.
  rewrite list_find_fmap.
  rewrite (@list_find_ext _ (λ x, P (key x)) HQ (P ∘ key)
             (λ x, HP (key x)) l) by done.
  by destruct (list_find _ l) as [[]|].
Qed.

Lemma fmap_alter_key {A K : Type} (key : A → K) (g : A → A) (i : nat)
    (l : list A) :
  (∀ x, key (g x) = key x) → key <$> alter g i l = key <$> l.
Proof.
  intros Hg. rewrite (list_fmap_alter key g id).
  - by apply list_alter_id.
  - apply Forall_forall. intros x _. apply Hg.
Qed.

Lemma food_index_ids (fid : N) (r r' : Room.t) :
  Food.id <$> Room.foods r' = Food.id <$> Room.foods r →
  Room.food_index fid r' = Room.food_index fid r.
Proof.
  intros Hids. unfold Room.food_index.
  etransitivity; [apply (list_find_key_pos Food.id (λ k, k = fid))|].
  rewrite Hids. symmetry. apply (list_find_key_pos Food.id (λ k, k = fid)).
Qed.

Lemma player_index_ids (pid : string) (r r' : Room.t) :
  Player.id <$> Room.players r' = Player.id <$> Room.players r →
  Room.player_index pid r' = Room.player_index pid r.
Proof.
  intros Hids. unfold Room.player_index.
  etransitivity; [apply (list_find_key_pos Player.id (λ k, k = pid))|].
  rewrite Hids. symmetry. apply (list_find_key_pos Player.id (λ k, k = pid)).
Qed.

(** ** The player object of a connection *)

Lemma player_index_alter (f : Player.t → Player.t) (pid : string) (i : nat)
    (r : Room.t) :
  (∀ p, Player.id (f p) = Player.id p) →
  Room.player_index pid (Room.alter_player f i r) = Room.player_index pid r.
Proof.
  intros Hf. unfold Room.player_index, Room.alter_player.
  destruct r; cbn. apply list_find_alter_pos. intros p. by rewrite Hf.
Qed.

Lemma player_index_lookup (pid : string) (i : nat) (r : Room.t) :
  Room.player_index pid r = Some i →
  ∃ p, Room.players r !! i = Some p ∧ Player.id p = pid.
Proof. apply list_find_pos_lookup. Qed.

(** A mutation through the connection is seen through the connection. *)
Lemma self_alter_self (f : Player.t → Player.t) (c : Conn.t) :
  (∀ p, Player.id (f p) = Player.id p) →
  Conn.self (Conn.alter_self f c) = f (Conn.self c).
Proof.
  intros Hf. unfold Conn.self, Conn.alter_self.
  destruct (Room.player_index _ (Conn.room c)) as [i|] eqn:E;
    cbn [Conn.set_room Conn.set_player Conn.room Conn.player].
  - rewrite player_index_alter, E by done.
    destruct (player_index_lookup _ _ _ E) as (p & Hp & _).
    unfold Room.alter_player, Room.set_players. cbn [Room.players].
    by rewrite list_lookup_alter_eq, Hp.
  - by rewrite Hf, E.
Qed.

Lemma room_alter_self (f : Player.t → Player.t) (c : Conn.t) (i : nat) :
  Room.player_index (Player.id (Conn.player c)) (Conn.room c) = Some i →
  Conn.room (Conn.alter_self f c) = Room.alter_player f i (Conn.room c).
Proof. intros E. unfold Conn.alter_self. by rewrite E. Qed.

(** ** Input messages *)

Section InputMessages.
Context {host : Host}.



(** An input message for a room that is not started changes nothing. *)
Lemma on_message_input_not_started (move : option (Json * Json))
    (aim release : Json) (c : Conn.t) :
  Room.started (Conn.room c) = false →
  on_message (MsgInput move aim release) c = c.
Proof. intros Hs. unfold on_message. by rewrite Hs. Qed.

End InputMessages.



(** ** Ready messages *)

Lemma startRoom_player_ready (p : Player.t) :
  Player.ready (startRoom_player p) = Player.ready p.
Proof. unfold startRoom_player. cbn. by destruct (decide _). Qed.

Lemma startRoom_player_id (p : Player.t) :
  Player.id (startRoom_player p) = Player.id p.
Proof. unfold startRoom_player. cbn. by destruct (decide _). Qed.

Lemma startRoom_player_side (p : Player.t) :
  Player.side (startRoom_player p) = Player.side p.
Proof. unfold startRoom_player. cbn. by destruct (decide _). Qed.

(** What [startRoom] leaves of a player. *)
Lemma startRoom_player_spawn (p : Player.t) :
  let q := startRoom_player p in
  Player.fullness q = 0 ∧ Player.holdingFoodId q = None
  ∧ (Player.side q = left →
       Player.x q = 180 ∧ Player.y q = HEIGHT / 2 ∧ Player.angle q = 0)
  ∧ (Player.side q = right →
       Player.x q = WIDTH - 180 ∧ Player.y q = HEIGHT / 2
       ∧ Player.angle q = Math_PI).
Proof.
  intros q. subst q. unfold startRoom_player. cbn.
  destruct (decide (Player.side p = left)) as [Hl|Hl]; cbn;
    (split; [done|]); (split; [done|]); split; intros Hs;
    try congruence; try (by destruct (Player.side p)); done.
Qed.

Lemma startRoom_players (r : Room.t) :
  Room.players (startRoom r) = startRoom_player <$> Room.players r.
Proof. done. Qed.

Lemma allReady_spec (r : Room.t) :
  allReady r = true ↔
  (2 ≤ length (Room.players r))%nat
  ∧ ∀ p, p ∈ Room.players r → Player.ready p = true.
Proof.
  unfold allReady. destruct (decide _) as [Hlt|Hge].
  - split; [done|]. intros [? _]. lia.
  - rewrite forallb_forall. setoid_rewrite <- list_elem_of_In.
    split; [intros Hall; split; [lia|done] | by intros [_ ?]].
Qed.

Lemma allReady_startRoom (r : Room.t) : allReady (startRoom r) = allReady r.
Proof.
  apply eq_true_iff_eq. rewrite !allReady_spec, startRoom_players.
  rewrite length_fmap. setoid_rewrite list_elem_of_fmap.
  split; intros [Hn Hall]; (split; [done|]).
  - intros p Hp. rewrite <- startRoom_player_ready. eauto.
  - intros q (p & -> & Hp). rewrite startRoom_player_ready. eauto.
Qed.

Lemma player_index_fmap (f : Player.t → Player.t) (pid : string)
    (r r' : Room.t) :
  (∀ p, Player.id (f p) = Player.id p) →
  Room.players r' = f <$> Room.players r →
  Room.player_index pid r' = Room.player_index pid r.
Proof.
  intros Hf Hr. unfold Room.player_index. rewrite Hr, list_find_fmap.
  rewrite (list_find_ext (_ ∘ f) (λ p, Player.id p = pid))
    by (intros p; cbn; by rewrite Hf).
  by destruct (list_find _ _) as [[]|].
Qed.

Lemma player_index_startRoom (pid : string) (r : Room.t) :
  Room.player_index pid (startRoom r) = Room.player_index pid r.
Proof.
  apply (player_index_fmap startRoom_player);
    [apply startRoom_player_id | apply startRoom_players].
Qed.

(** [startRoom] keeps the ready flag of the player of a connection. *)
Lemma self_startRoom_ready (c : Conn.t) :
  Player.ready (Conn.self (Conn.set_room (startRoom (Conn.room c)) c))
  = Player.ready (Conn.self c).
Proof.
  unfold Conn.self. cbn [Conn.set_room Conn.room Conn.player].
  rewrite player_index_startRoom.
  destruct (Room.player_index _ _) as [i|]; [|done].
  rewrite startRoom_players, list_lookup_fmap.
  destruct (Room.players (Conn.room c) !! i); cbn; [|done].
  apply startRoom_player_ready.
Qed.

Section ReadyMessages.
Context {host : Host}.

(** The handler of a ready message, in two steps. *)
Lemma on_message_ready (v : Json) (c : Conn.t) :
  let c1 := Conn.alter_self (Player.set_ready (Boolean v)) c in
  on_message (MsgReady v) c
  = if allReady (Conn.room c1)
    then Conn.set_room (startRoom (Conn.room c1)) c1 else c1.
Proof. done. Qed.

(** C3: when the room holds two players who are all ready once a ready
    message is applied, that message has started the room: [started] is
    true, the foods are cleared, the elapsed time and the spawn
    accumulator are zero, and every player has fullness zero, holds
    nothing and stands at the spawn of its side: x = 180, y = HEIGHT / 2,
    angle 0 on the left; x = WIDTH - 180, y = HEIGHT / 2, angle π on the
    right. *)
Theorem ready_message_starts_room (v : Json) (c : Conn.t) :
  let room' := Conn.room (on_message (MsgReady v) c) in
  length (Room.players room') = 2%nat →
  (∀ p, p ∈ Room.players room' → Player.ready p = true) →
  Room.started room' = true
  ∧ Room.foods room' = []
  ∧ Room.time room' = 0
  ∧ Room.lastSpawnTime room' = 0
  ∧ ∀ p, p ∈ Room.players room' →
      Player.fullness p = 0
      ∧ Player.holdingFoodId p = None
      ∧ (Player.side p = left →
           Player.x p = 180 ∧ Player.y p = HEIGHT / 2 ∧ Player.angle p = 0)
      ∧ (Player.side p = right →
           Player.x p = WIDTH - 180 ∧ Player.y p = HEIGHT / 2
           ∧ Player.angle p = Math_PI).
Proof.
  intros room'. subst room'. rewrite on_message_ready.
  set (c1 := Conn.alter_self _ c).
  destruct (allReady (Conn.room c1)) eqn:Hall.
  - intros _ _. cbn [Conn.set_room Conn.room].
    do 4 (split; [done|]). intros p Hp.
    rewrite startRoom_players in Hp.
    apply list_elem_of_fmap in Hp as (q & -> & _).
    apply startRoom_player_spawn.
  - intros Hlen Hready. exfalso.
    assert (allReady (Conn.room c1) = true) as Hyes; [|congruence].
    apply allReady_spec. split; [lia|done].
Qed.

(** C4, amended: a ready message that arrives while the room is running is
    applied like any other.  It sets the ready flag of its sender to
    [Boolean(msg.ready)].  If that leaves a player who is not ready (as it
    does when [msg.ready] is falsy), nothing else changes.  If the room then
    has two players who are all ready, [startRoom] runs again: the room
    stays started, with the foods cleared, the elapsed time zero and every
    fullness zero. *)
Theorem ready_message_while_running (v : Json) (c : Conn.t) (i : nat) :
  Room.started (Conn.room c) = true →
  Room.gameOver (Conn.room c) = false →
  Room.player_index (Player.id (Conn.player c)) (Conn.room c) = Some i →
  let c' := on_message (MsgReady v) c in
  let flagged :=
    Room.alter_player (Player.set_ready (Boolean v)) i (Conn.room c) in
  Player.ready (Conn.self c') = Boolean v
  ∧ (Boolean v = false → Conn.room c' = flagged)
  ∧ (allReady flagged = false → Conn.room c' = flagged)
  ∧ (allReady flagged = true →
       Conn.room c' = startRoom flagged
       ∧ Room.started (Conn.room c') = true
       ∧ Room.time (Conn.room c') = 0
       ∧ Room.foods (Conn.room c') = []
       ∧ ∀ p, p ∈ Room.players (Conn.room c') → Player.fullness p = 0).
Proof.
  intros Hs Hg Hi c' flagged. subst c'. rewrite on_message_ready.
  set (c1 := Conn.alter_self _ c).
  assert (Conn.room c1 = flagged) as Hroom by by apply room_alter_self.
  assert (Player.ready (Conn.self c1) = Boolean v) as Hself
    by (unfold c1; by rewrite self_alter_self).
  assert (Boolean v = false → allReady flagged = false) as Hfalse.
  { intros Hv. destruct (allReady flagged) eqn:Hall; [|done].
    apply allReady_spec in Hall as [_ Hall].
    destruct (player_index_lookup _ _ _ Hi) as (p & Hp & _).
    rewrite <- Hv, <- (Hall (Player.set_ready (Boolean v) p)); [done|].
    apply list_elem_of_lookup. exists i. unfold flagged, Room.alter_player.
    cbn [Room.set_players Room.players].
    by rewrite list_lookup_alter_eq, Hp. }
  rewrite Hroom. destruct (allReady flagged) eqn:Hall.
  - cbn [Conn.set_room Conn.room]. split; [|split; [|split]].
    + rewrite <- Hself, <- Hroom. apply self_startRoom_ready.
    + intros Hv. by specialize (Hfalse Hv).
    + done.
    + intros _. do 4 (split; [done|]).
      intros p (q & -> & _)%list_elem_of_fmap. apply startRoom_player_spawn.
  - split; [done|]. split; [done|]. split; [by rewrite Hroom|done].
Qed.

End ReadyMessages.

Lemma ready_message_starts_room_witness :
  let room' :=
    Conn.room (on_message (host := SampleHost.host) (MsgReady (JBool true))
                 Sample.conn_waiting_right) in
  Room.started (Conn.room Sample.conn_waiting_right) = false
  ∧ length (Room.players room') = 2%nat
  ∧ Room.started room' = true
  ∧ Room.foods room' = []
  ∧ Room.time room' = 0
  ∧ Room.lastSpawnTime room' = 0
  ∧ ∀ p, p ∈ Room.players room' →
      Player.fullness p = 0
      ∧ Player.holdingFoodId p = None
      ∧ (Player.side p = left →
           Player.x p = 180 ∧ Player.y p = HEIGHT / 2 ∧ Player.angle p = 0)
      ∧ (Player.side p = right →
           Player.x p = WIDTH - 180 ∧ Player.y p = HEIGHT / 2
           ∧ Player.angle p = Math_PI).
Proof.
  split; [reflexivity|]. split; [reflexivity|].
  apply (ready_message_starts_room (host := SampleHost.host) (JBool true)
           Sample.conn_waiting_right); [reflexivity|].
  apply Forall_forall. vm_compute. repeat constructor.
Defined.

Lemma ready_message_while_running_witness :
  let c' :=
    on_message (host := SampleHost.host) (MsgReady (JBool false))
      Sample.conn_left in
  let flagged :=
    Room.alter_player (Player.set_ready (Boolean (JBool false))) 0
      (Conn.room Sample.conn_left) in
  Player.ready (Conn.self c') = Boolean (JBool false)
  ∧ (Boolean (JBool false) = false → Conn.room c' = flagged)
  ∧ (allReady flagged = false → Conn.room c' = flagged)
  ∧ (allReady flagged = true →
       Conn.room c' = startRoom flagged
       ∧ Room.started (Conn.room c') = true
       ∧ Room.time (Conn.room c') = 0
       ∧ Room.foods (Conn.room c') = []
       ∧ ∀ p, p ∈ Room.players (Conn.room c') → Player.fullness p = 0).
Proof.
  apply (ready_message_while_running (host := SampleHost.host) (JBool false)
           Sample.conn_left 0); reflexivity.
Defined.

(** C4 as stated fails: in the running room [Sample.running], whose two
    players are ready as they were at the start, the message
    [{"type":"ready","ready":true}] of the left player restarts the match
    (the food is gone, the clock is back at zero, the fullness of 42 is
    lost), and [{"type":"ready","ready":false}] clears its ready flag. *)
Lemma ready_message_changes_running_room :
  let before := Sample.conn_left in
  let yes :=
    on_message (host := SampleHost.host) (MsgReady (JBool true)) before in
  let no :=
    on_message (host := SampleHost.host) (MsgReady (JBool false)) before in
  Room.started (Conn.room before) = true
  ∧ Room.gameOver (Conn.room before) = false
  ∧ Room.foods (Conn.room before) = [Sample.rice]
  ∧ Room.foods (Conn.room yes) = []
  ∧ Room.time (Conn.room before) = 5
  ∧ Room.time (Conn.room yes) = 0
  ∧ Player.fullness (Conn.self before) = 42
  ∧ Player.fullness (Conn.self yes) = 0
  ∧ Player.ready (Conn.self before) = true
  ∧ Player.ready (Conn.self no) = false
  ∧ Conn.room yes ≠ Conn.room before
  ∧ Conn.room no ≠ Conn.room before.
Proof.
  do 10 (split; [reflexivity|]). split.
  - intros E. apply (f_equal Room.foods) in E. vm_compute in E. discriminate.
  - intros E. apply (f_equal (λ r, Player.ready <$> Room.players r)) in E.
    vm_compute in E. discriminate.
Qed.

(** ** Leaving *)

Lemma filter_all {A : Type} (P : A → Prop) `{!∀ x, Decision (P x)}
    (l : list A) :
  Forall P l → filter P l = l.
Proof.
  induction 1 as [|x l Hx _ IH]; [done|].
  by rewrite filter_cons, decide_True, IH.
Qed.

Lemma set_players_same (r : Room.t) : Room.set_players (Room.players r) r = r.
Proof. by destruct r. Qed.

Lemma self_id (c : Conn.t) : Player.id (Conn.self c) = Player.id (Conn.player c).
Proof.
  unfold Conn.self.
  destruct (Room.player_index _ _) as [i|] eqn:E; [|done].
  destruct (player_index_lookup _ _ _ E) as (p & -> & Hid). done.
Qed.

Lemma resetGameIfNeeded_ids (r : Room.t) :
  Player.id <$> Room.players (resetGameIfNeeded r)
  = Player.id <$> Room.players r.
Proof.
  unfold resetGameIfNeeded. destruct (decide _); [|done].
  cbn [Room.set_players Room.players]. by rewrite <- list_fmap_compose.
Qed.

Lemma resetGameIfNeeded_length (r : Room.t) :
  length (Room.players (resetGameIfNeeded r)) = length (Room.players r).
Proof.
  rewrite <- (length_fmap Player.id), resetGameIfNeeded_ids.
  apply length_fmap.
Qed.

Lemma resetGameIfNeeded_idemp (r : Room.t) :
  resetGameIfNeeded (resetGameIfNeeded r) = resetGameIfNeeded r.
Proof.
  unfold resetGameIfNeeded. destruct r as [rid ps fs n l t g w lo st].
  room_fields. destruct (decide (length ps < 2)%nat) as [Hlt|Hge].
  - rewrite length_fmap, decide_True by done.
    f_equal. rewrite <- list_fmap_compose. by apply list_fmap_ext.
  - by rewrite decide_False.
Qed.

(** No player has the id [pid] once it is deleted. *)
Lemma delete_player_absent (pid : string) (r : Room.t) :
  Forall (λ p, Player.id p ≠ pid) (Room.players (delete_player pid r)).
Proof.
  apply Forall_forall. intros p Hp%list_elem_of_filter. tauto.
Qed.

Lemma absent_index (pid : string) (r : Room.t) :
  Forall (λ p, Player.id p ≠ pid) (Room.players r) →
  Room.player_index pid r = None.
Proof.
  intros Hall. unfold Room.player_index.
  assert (list_find (λ p, Player.id p = pid) (Room.players r) = None) as ->;
    [|done].
  apply list_find_None. eapply Forall_impl; [done|]. by intros p Hp.
Qed.

Lemma absent_delete (pid : string) (r : Room.t) :
  Forall (λ p, Player.id p ≠ pid) (Room.players r) → delete_player pid r = r.
Proof.
  intros Hall. unfold delete_player. rewrite filter_all by done.
  apply set_players_same.
Qed.

Lemma absent_ids (pid : string) (r r' : Room.t) :
  Player.id <$> Room.players r' = Player.id <$> Room.players r →
  Forall (λ p, Player.id p ≠ pid) (Room.players r) →
  Forall (λ p, Player.id p ≠ pid) (Room.players r').
Proof.
  intros Hids Hall.
  apply (Forall_fmap Player.id (λ i, i ≠ pid)).
  rewrite Hids. by apply Forall_fmap.
Qed.

Lemma free_held_players (me : Player.t) (r : Room.t) :
  Room.players (free_held me r) = Room.players r.
Proof.
  unfold free_held. destruct (Player.holding me); [|done].
  by destruct (Room.food_index _ _).
Qed.

Lemma food_index_alter (f : Food.t → Food.t) (fid : N) (j : nat) (r : Room.t) :
  (∀ x, Food.id (f x) = Food.id x) →
  Room.food_index fid (Room.alter_food f j r) = Room.food_index fid r.
Proof.
  intros Hf. unfold Room.food_index, Room.alter_food.
  cbn [Room.set_foods Room.foods]. apply list_find_alter_pos.
  intros x. by rewrite Hf.
Qed.

Lemma free_held_idemp (me : Player.t) (r : Room.t) :
  free_held me (free_held me r) = free_held me r.
Proof.
  unfold free_held. destruct (Player.holding me) as [fid|]; [|done].
  destruct (Room.food_index fid r) as [j|] eqn:E; [|by rewrite E].
  rewrite food_index_alter, E by done.
  destruct r; room_fields. f_equal.
  rewrite list_alter_alter_eq. by apply list_alter_ext.
Qed.

Lemma free_held_no_foods (me : Player.t) (r : Room.t) :
  Room.foods r = [] → free_held me r = r.
Proof.
  intros Hf. unfold free_held, Room.food_index. rewrite Hf.
  by destruct (Player.holding me).
Qed.

Lemma resetGameIfNeeded_small (r : Room.t) :
  (length (Room.players r) < 2)%nat → Room.foods (resetGameIfNeeded r) = [].
Proof. intros Hlt. unfold resetGameIfNeeded. by rewrite decide_True. Qed.

Lemma resetGameIfNeeded_large (r : Room.t) :
  ¬ (length (Room.players r) < 2)%nat → resetGameIfNeeded r = r.
Proof. intros Hge. unfold resetGameIfNeeded. by rewrite decide_False. Qed.

(** The room after a player left: leaving once more changes nothing. *)
Lemma leave_twice (me : Player.t) (r : Room.t) :
  let left_once :=
    resetGameIfNeeded (free_held me (delete_player (Player.id me) r)) in
  resetGameIfNeeded (free_held me (delete_player (Player.id me) left_once))
  = left_once.
Proof.
  intros left_once.
  assert (Forall (λ p, Player.id p ≠ Player.id me) (Room.players left_once))
    as Habsent.
  { eapply absent_ids; [|apply (delete_player_absent (Player.id me) r)].
    unfold left_once. by rewrite resetGameIfNeeded_ids, free_held_players. }
  rewrite absent_delete by done. unfold left_once.
  set (r1 := free_held me (delete_player (Player.id me) r)).
  destruct (decide (length (Room.players r1) < 2)%nat) as [Hlt|Hge].
  - rewrite (free_held_no_foods me (resetGameIfNeeded r1))
      by by apply resetGameIfNeeded_small.
    apply resetGameIfNeeded_idemp.
  - rewrite !(resetGameIfNeeded_large r1) by done.
    unfold r1. rewrite free_held_idemp.
    by apply resetGameIfNeeded_large.
Qed.

Lemma on_close_unfold (c : Conn.t) :
  let me := Conn.self c in
  let room := room_after_leave me (Conn.room c) in
  on_close c
  = Conn.mk (Conn.roomId c) room
      (if decide (length (Room.players room) = 0%nat) then Conn.NoRoom
       else Conn.slot c)
      me.
Proof.
  cbn zeta. unfold on_close, room_after_leave.
  cbn [Conn.set_player Conn.room].
  by destruct (decide _).
Qed.

Lemma room_after_leave_absent (me : Player.t) (r : Room.t) :
  Room.player_index (Player.id me) (room_after_leave me r) = None.
Proof.
  apply absent_index.
  eapply absent_ids; [|apply (delete_player_absent (Player.id me) r)].
  unfold room_after_leave. by rewrite resetGameIfNeeded_ids, free_held_players.
Qed.

Lemma room_after_leave_length (me : Player.t) (r : Room.t) :
  length (Room.players (room_after_leave me r))
  = length (filter (λ p, Player.id p ≠ Player.id me) (Room.players r)).
Proof.
  unfold room_after_leave.
  by rewrite resetGameIfNeeded_length, free_held_players.
Qed.

(** Deleting a key that is present once takes one entry away. *)
Lemma length_delete_key {A K : Type} `{EqDecision K} (key : A → K)
    (l : list A) (i : nat) (x : A) :
  NoDup (key <$> l) → l !! i = Some x →
  S (length (filter (λ y, key y ≠ key x) l)) = length l.
Proof.
  revert i. induction l as [|y l IH]; intros i Hnd Hi; [done|].
  rewrite fmap_cons in Hnd. apply NoDup_cons in Hnd as [Hy Hnd].
  rewrite filter_cons. destruct i as [|i]; simplify_eq/=.
  - rewrite decide_False by (intros Hne; by apply Hne).
    rewrite filter_all; [done|].
    apply Forall_forall. intros z Hz Heq. apply Hy. rewrite <- Heq.
    by apply list_elem_of_fmap_2.
  - rewrite decide_True.
    + cbn. f_equal. by eapply IH.
    + intros Heq. apply Hy. rewrite Heq.
      apply list_elem_of_fmap_2. by eapply list_elem_of_lookup_2.
Qed.

(** C8: the handler of a closed connection, applied twice for the same
    player.  The handler has no statement that can throw.  Its first run
    takes the player out of the room, one player less; its second run finds
    the player absent and leaves the connection, its room and the registry
    slot as the first run left them. *)
Theorem close_twice_is_close_once (c : Conn.t) (i : nat) :
  NoDup (Player.id <$> Room.players (Conn.room c)) →
  Room.player_index (Player.id (Conn.player c)) (Conn.room c) = Some i →
  let once := on_close c in
  let twice := on_close once in
  S (length (Room.players (Conn.room once)))
    = length (Room.players (Conn.room c))
  ∧ Room.player_index (Player.id (Conn.player c)) (Conn.room once) = None
  ∧ twice = once
  ∧ length (Room.players (Conn.room twice))
    = length (Room.players (Conn.room once)).
Proof.
  intros Hnd Hi once twice.
  assert (twice = once) as Htwice.
  { unfold twice. rewrite (on_close_unfold once). cbn zeta.
    unfold once. rewrite (on_close_unfold c). cbn zeta.
    set (me := Conn.self c). set (r1 := room_after_leave me (Conn.room c)).
    assert (Conn.self (Conn.mk (Conn.roomId c) r1
              (if decide (length (Room.players r1) = 0%nat)
               then Conn.NoRoom else Conn.slot c) me) = me) as ->.
    { unfold Conn.self. cbn [Conn.room Conn.player].
      unfold r1. by rewrite room_after_leave_absent. }
    cbn [Conn.room Conn.roomId Conn.slot].
    assert (room_after_leave me r1 = r1) as -> by apply leave_twice.
    by destruct (decide _). }
  split; [|split; [|split]]; [| |done|by rewrite Htwice].
  - unfold once. rewrite on_close_unfold. cbn [Conn.room].
    rewrite room_after_leave_length.
    destruct (player_index_lookup _ _ _ Hi) as (p & Hp & Hid).
    rewrite self_id, <- Hid. by eapply (length_delete_key Player.id).
  - unfold once. rewrite on_close_unfold. cbn [Conn.room].
    rewrite <- self_id. apply room_after_leave_absent.
Qed.

(** Without any assumption on the room: closing is idempotent. *)
Lemma on_close_idemp (c : Conn.t) : on_close (on_close c) = on_close c.
Proof.
  rewrite (on_close_unfold (on_close c)). cbn zeta.
  rewrite (on_close_unfold c). cbn zeta.
  set (me := Conn.self c). set (r1 := room_after_leave me (Conn.room c)).
  assert (Conn.self (Conn.mk (Conn.roomId c) r1
            (if decide (length (Room.players r1) = 0%nat)
             then Conn.NoRoom else Conn.slot c) me) = me) as ->.
  { unfold Conn.self. cbn [Conn.room Conn.player].
    unfold r1. by rewrite room_after_leave_absent. }
  cbn [Conn.room Conn.roomId Conn.slot].
  assert (room_after_leave me r1 = r1) as -> by apply leave_twice.
  by destruct (decide _).
Qed.

Lemma close_twice_is_close_once_witness :
  let once := on_close Sample.conn_left in
  let twice := on_close once in
  S (length (Room.players (Conn.room once)))
    = length (Room.players (Conn.room Sample.conn_left))
  ∧ Room.player_index (Player.id (Conn.player Sample.conn_left))
      (Conn.room once) = None
  ∧ twice = once
  ∧ length (Room.players (Conn.room twice))
    = length (Room.players (Conn.room once)).
Proof.
  apply (close_twice_is_close_once Sample.conn_left 0); [|reflexivity].
  apply (bool_decide_unpack _). vm_compute. exact I.
Defined.

(** ** Loops over the players *)

Lemma for_each_player_preserves {A : Type} (proj : Room.t → A)
    (body : nat → Room.t → Room.t) (r : Room.t) :
  (∀ k r, proj (body k r) = proj r) →
  proj (for_each_player body r) = proj r.
Proof.
  intros Hbody. unfold for_each_player.
  generalize (seq 0 (length (Room.players r))). intros ks. revert r.
  induction ks as [|k ks IH]; intros r; [done|].
  cbn. by rewrite IH.
Qed.

Lemma foldl_preserves {A : Type} (proj : Room.t → A)
    (body : nat → Room.t → Room.t) (ks : list nat) (r : Room.t) :
  (∀ k r, k ∈ ks → proj (body k r) = proj r) →
  proj (foldl (λ r i, body i r) r ks) = proj r.
Proof.
  revert r. induction ks as [|k ks IH]; intros r Hbody; [done|].
  cbn. rewrite IH by (intros; apply Hbody; set_solver).
  apply Hbody. set_solver.
Qed.

(** ** Held foods *)

Section HeldFoods.
Context {host : Host}.

Lemma updateHeldFoods_body_frame (k : nat) (r : Room.t) :
  held_frame (updateHeldFoods_body k r) = held_frame r.
Proof.
  unfold updateHeldFoods_body.
  destruct (Room.players r !! k) as [p|]; [|done].
  destruct (Player.holding p) as [fid|]; [|done].
  destruct (Room.food_index fid r) as [j|].
  - unfold held_frame. destruct r; room_fields. do 9 f_equal.
    by apply fmap_alter_key.
  - unfold held_frame. destruct r; room_fields. f_equal.
    apply length_alter.
Qed.

Lemma updateHeldFoods_body_other (k i : nat) (r : Room.t) :
  k ≠ i →
  Room.players (updateHeldFoods_body k r) !! i = Room.players r !! i.
Proof.
  intros Hne. unfold updateHeldFoods_body.
  destruct (Room.players r !! k) as [p|]; [|done].
  destruct (Player.holding p) as [fid|]; [|done].
  destruct (Room.food_index fid r) as [j|]; [done|].
  unfold Room.alter_player. cbn [Room.set_players Room.players].
  by apply list_lookup_alter_ne.
Qed.

(** The body of the loop, on a player whose held food is gone. *)
Lemma updateHeldFoods_body_heal (i : nat) (player : Player.t) (fid : N)
    (r : Room.t) :
  Room.players r !! i = Some player →
  Player.holding player = Some fid →
  Room.food_index fid r = None →
  updateHeldFoods_body i r
  = Room.alter_player (Player.set_holdingFoodId None) i r.
Proof. intros Hp Hh Hf. unfold updateHeldFoods_body. by rewrite Hp, Hh, Hf. Qed.

(** C9: a player, at position [i] of the room, holds the id of a food
    that is not in the room.  The body of the loop of [updateHeldFoods]
    clears [holdingFoodId] of that player and writes nothing else (there
    is no statement in it that can throw); at the end of [updateHeldFoods]
    the player is as it was but for the cleared [holdingFoodId], and the
    room has the same foods by id, the same number of players and the same
    clock and flags. *)
Theorem updateHeldFoods_heals_dangling (i : nat) (player : Player.t)
    (fid : N) (r : Room.t) :
  Room.players r !! i = Some player →
  Player.holding player = Some fid →
  Room.food_index fid r = None →
  updateHeldFoods_body i r
    = Room.alter_player (Player.set_holdingFoodId None) i r
  ∧ Room.players (updateHeldFoods r) !! i
    = Some (Player.set_holdingFoodId None player)
  ∧ held_frame (updateHeldFoods r) = held_frame r.
Proof.
  intros Hp Hh Hf. split; [by eapply updateHeldFoods_body_heal|].
  split; [|apply for_each_player_preserves, updateHeldFoods_body_frame].
  unfold updateHeldFoods, for_each_player.
  pose proof (lookup_lt_Some _ _ _ Hp) as Hlt.
  replace (length (Room.players r))
    with (i + S (length (Room.players r) - S i))%nat by lia.
  rewrite seq_app, foldl_app. cbn [seq foldl plus].
  set (r1 := foldl _ r (seq 0 i)).
  assert (Room.players r1 !! i = Some player) as Hp1.
  { rewrite <- Hp. unfold r1.
    apply (foldl_preserves (λ r, Room.players r !! i)).
    intros k r' Hk%elem_of_seq. apply updateHeldFoods_body_other. lia. }
  assert (Room.food_index fid r1 = None) as Hf1.
  { rewrite <- Hf. apply food_index_ids. unfold r1.
    apply (foldl_preserves (λ r, Food.id <$> Room.foods r)).
    intros k r' _.
    pose proof (updateHeldFoods_body_frame k r') as Hfr.
    unfold held_frame in Hfr. by simplify_eq. }
  rewrite (foldl_preserves (λ r, Room.players r !! i)).
  - rewrite (updateHeldFoods_body_heal i player fid) by done.
    unfold Room.alter_player. cbn [Room.set_players Room.players].
    by rewrite list_lookup_alter_eq, Hp1.
  - intros k r' Hk%elem_of_seq. apply updateHeldFoods_body_other. lia.
Qed.

End HeldFoods.

Lemma updateHeldFoods_heals_dangling_witness :
  updateHeldFoods_body (host := SampleHost.host) 0 Sample.stale
    = Room.alter_player (Player.set_holdingFoodId None) 0 Sample.stale
  ∧ Room.players (updateHeldFoods (host := SampleHost.host) Sample.stale) !! 0%nat
    = Some (Player.set_holdingFoodId None
              (Player.set_holdingFoodId (Some 7%N) Sample.lefty))
  ∧ held_frame (updateHeldFoods (host := SampleHost.host) Sample.stale)
    = held_frame Sample.stale.
Proof.
  apply (updateHeldFoods_heals_dangling (host := SampleHost.host) 0
           (Player.set_holdingFoodId (Some 7%N) Sample.lefty) 7 Sample.stale);
    reflexivity.
Defined.

(** ** Free foods *)

Section FreeFoods.
Context {host : Host}.

Lemma updateFoods_body_id (dt : float) (k : nat) (food : Food.t) :
  Food.id (updateFoods_body dt k food).2 = Food.id food.
Proof.
  unfold updateFoods_body. destruct (decide _); [done|].
  by destruct (Js.gtb _ _).
Qed.

Lemma updateFoods_body_counter (dt : float) (k : nat) (food : Food.t) :
  (k ≤ (updateFoods_body dt k food).1)%nat.
Proof.
  unfold updateFoods_body. destruct (decide _); [done|].
  destruct (Js.gtb _ _); cbn; lia.
Qed.

Lemma updateFoods_loop_cons (dt : float) (k : nat) (food : Food.t)
    (rest : list Food.t) :
  updateFoods_loop dt k (food :: rest)
  = let k1 := (updateFoods_body dt k food).1 in
    ((updateFoods_loop dt k1 rest).1,
     (updateFoods_body dt k food).2 :: (updateFoods_loop dt k1 rest).2).
Proof.
  cbn [updateFoods_loop]. destruct (updateFoods_body dt k food) as [k1 f'].
  cbn. by destruct (updateFoods_loop dt k1 rest).
Qed.

Lemma updateFoods_loop_counter (dt : float) (k : nat) (foods : list Food.t) :
  (k ≤ (updateFoods_loop dt k foods).1)%nat.
Proof.
  revert k. induction foods as [|food rest IH]; intros k; [done|].
  rewrite updateFoods_loop_cons. cbn.
  etransitivity; [apply (updateFoods_body_counter dt k food)|apply IH].
Qed.

Lemma updateFoods_loop_ids (dt : float) (k : nat) (foods : list Food.t) :
  Food.id <$> (updateFoods_loop dt k foods).2 = Food.id <$> foods.
Proof.
  revert k. induction foods as [|food rest IH]; intros k; [done|].
  rewrite updateFoods_loop_cons. cbn. by rewrite updateFoods_body_id, IH.
Qed.

(** Each food is updated in its place, with random values of its own. *)
Lemma updateFoods_loop_lookup (dt : float) (k : nat) (foods : list Food.t)
    (j : nat) (food : Food.t) :
  foods !! j = Some food →
  ∃ kj, (k ≤ kj)%nat
        ∧ ((updateFoods_body dt kj food).1 ≤ (updateFoods_loop dt k foods).1)%nat
        ∧ (updateFoods_loop dt k foods).2 !! j
          = Some (updateFoods_body dt kj food).2.
Proof.
  revert k j. induction foods as [|f rest IH]; intros k j Hj; [done|].
  rewrite updateFoods_loop_cons. cbn zeta. cbn [fst snd].
  destruct j as [|j]; simplify_eq/=.
  - exists k. split; [done|]. split; [apply updateFoods_loop_counter|done].
  - destruct (IH (updateFoods_body dt k f).1 j Hj) as (kj & Hk & Hk' & Hl).
    exists kj. split; [|done].
    etransitivity; [apply (updateFoods_body_counter dt k f)|done].
Qed.

(** The body of the loop, on a free food that has fallen out. *)
Lemma updateFoods_body_fallen (dt : float) (k : nat) (food : Food.t) :
  Food.state food ≠ held →
  Js.gtb (Food.y food + (Food.vy food + GRAVITY * dt) * dt) (HEIGHT + 60)
    = true →
  updateFoods_body dt k food
  = ((k + 2)%nat,
     {| Food.id := Food.id food;
        Food.x := 80 + Math_random k * (WIDTH - 160);
        Food.y := -20;
        Food.vx := (Math_random (k + 1) - 0.5) * 16;
        Food.vy := 0;
        Food.value := Food.value food;
        Food.state := Food.state food;
        Food.heldBy := Food.heldBy food;
        Food.mouthTimers := Food.mouthTimers food |}).
Proof.
  intros Hfree Hfall. unfold updateFoods_body. rewrite decide_False by done.
  cbn [Food.set_vy Food.set_x Food.set_y Food.y Food.vy].
  by rewrite Hfall.
Qed.

(** C7: a food that is not held and whose y coordinate, once the update
    has integrated it, exceeds HEIGHT + 60 stays in the room: it keeps its
    place and its id, and is put back at y = -20 with
    x = 80 + Math.random() * (WIDTH - 160), vx = (Math.random() - 0.5) * 16
    and vy = 0, on two random values drawn for it.  No food is removed by
    the update: the ids of the foods, hence their number, are unchanged. *)
Theorem updateFoods_recycles_fallen_food (dt : float) (k : nat)
    (room : Room.t) (j : nat) (food : Food.t) :
  Room.foods room !! j = Some food →
  Food.state food ≠ held →
  Js.gtb (Food.y food + (Food.vy food + GRAVITY * dt) * dt) (HEIGHT + 60)
    = true →
  let k' := (updateFoods dt k room).1 in
  let room' := (updateFoods dt k room).2 in
  length (Room.foods room') = length (Room.foods room)
  ∧ Food.id <$> Room.foods room' = Food.id <$> Room.foods room
  ∧ ∃ kj food',
      (k ≤ kj ∧ kj + 2 ≤ k')%nat
      ∧ Room.foods room' !! j = Some food'
      ∧ Food.id food' = Food.id food
      ∧ Food.state food' = Food.state food
      ∧ Food.y food' = -20
      ∧ Food.x food' = 80 + Math_random kj * (WIDTH - 160)
      ∧ Food.vx food' = (Math_random (kj + 1) - 0.5) * 16
      ∧ Food.vy food' = 0.
Proof.
  intros Hj Hfree Hfall k' room'.
  assert (Room.foods room' = (updateFoods_loop dt k (Room.foods room)).2
          ∧ k' = (updateFoods_loop dt k (Room.foods room)).1) as [Hfoods Hk'].
  { unfold room', k', updateFoods.
    by destruct (updateFoods_loop dt k (Room.foods room)). }
  assert (Food.id <$> Room.foods room' = Food.id <$> Room.foods room) as Hids
    by (rewrite Hfoods; apply updateFoods_loop_ids).
  split; [|split; [done|]].
  { by rewrite <- (length_fmap Food.id), Hids, length_fmap. }
  destruct (updateFoods_loop_lookup dt k _ j food Hj) as (kj & Hk & Hkj & Hl).
  rewrite (updateFoods_body_fallen dt kj food) in Hkj, Hl by done.
  cbn [fst snd] in Hkj, Hl. rewrite <- Hfoods in Hl. rewrite <- Hk' in Hkj.
  eexists kj, _. split; [lia|]. split; [exact Hl|]. done.
Qed.

End FreeFoods.

Lemma updateFoods_recycles_fallen_food_witness :
  let k' := (updateFoods (host := SampleHost.host) DT 0 Sample.raining).1 in
  let room' := (updateFoods (host := SampleHost.host) DT 0 Sample.raining).2 in
  length (Room.foods room') = length (Room.foods Sample.raining)
  ∧ Food.id <$> Room.foods room' = Food.id <$> Room.foods Sample.raining
  ∧ ∃ kj food',
      (0 ≤ kj ∧ kj + 2 ≤ k')%nat
      ∧ Room.foods room' !! 1%nat = Some food'
      ∧ Food.id food' = Food.id Sample.falling
      ∧ Food.state food' = Food.state Sample.falling
      ∧ Food.y food' = -20
      ∧ Food.x food' = 80 + SampleHost.random kj * (WIDTH - 160)
      ∧ Food.vx food' = (SampleHost.random (kj + 1) - 0.5) * 16
      ∧ Food.vy food' = 0.
Proof.
  apply (updateFoods_recycles_fallen_food (host := SampleHost.host) DT 0
           Sample.raining 1 Sample.falling);
    [reflexivity | discriminate | reflexivity].
Defined.

(** The ends of the range of the new x: [Math.random()] is at least [0]
    and at most the largest number below [1]. *)
Example recycled_x_extremes :
  80 + 0 * (WIDTH - 160) = 80
  ∧ (80 + 0x1.fffffffffffffp-1 * (WIDTH - 160) <? WIDTH - 80) = true.
Proof. split; reflexivity. Qed.

(** ** Eating *)

Section Eating.
Context {host : Host}.

(** A scan that ends with an eaten food ends in [consume]. *)
Lemma handleEating_players_eaten (dt : float) (fi : nat) (js : list nat)
    (room room' : Room.t) (j i : nat) :
  handleEating_players dt fi js room = Eaten room' j i →
  ∃ room0 food,
    room' = consume j food room0 ∧ is_Some (Room.players room0 !! j).
Proof.
  revert room. induction js as [|j0 js IH]; intros room; [done|].
  cbn [handleEating_players].
  destruct (Room.foods room !! fi) as [food|]; [|done].
  destruct (Room.players room !! j0) as [player|] eqn:Hp; [|done].
  destruct (timer_reached _ _); [|by apply IH].
  intros [= <- <- <-]. eexists _, _. split; [done|].
  unfold Room.alter_food. cbn [Room.set_foods Room.players]. by rewrite Hp.
Qed.

Lemma handleEating_foods_eaten (dt : float) (fis : list nat)
    (room room' : Room.t) (j i : nat) :
  handleEating_foods dt fis room = Eaten room' j i →
  ∃ room0 food,
    room' = consume j food room0 ∧ is_Some (Room.players room0 !! j).
Proof.
  revert room. induction fis as [|fi fis IH]; intros room; [done|].
  cbn [handleEating_foods].
  destruct (handleEating_players _ _ _ _) as [r1|r1 j1 i1] eqn:E.
  - apply IH.
  - intros [= <- <- <-]. by eapply handleEating_players_eaten.
Qed.

(** The end of [consume], on an eater that is full. *)
Lemma consume_full (j : nat) (food : Food.t) (room0 : Room.t)
    (eater : Player.t) :
  is_Some (Room.players room0 !! j) →
  Room.players (consume j food room0) !! j = Some eater →
  Js.geb (Player.fullness eater) MAX_FULLNESS = true →
  lost eater (consume j food room0).
Proof.
  intros Hj. unfold consume.
  set (r1 := Room.alter_player _ j room0).
  set (r2 := match Food.holder food with Some _ => _ | None => r1 end).
  set (r3 := Room.set_foods _ r2).
  destruct (Room.players r3 !! j) as [e3|] eqn:He3; [|congruence].
  destruct (Js.geb (Player.fullness e3) MAX_FULLNESS) eqn:Hfull;
    [|congruence].
  room_fields. fold (Room.players r3). rewrite list_lookup_fmap, He3.
  intros [= <-] _. unfold lost. room_fields. fold (Room.players r3).
  cbn [Player.set_ready Player.id].
  split; [done|]. split; [done|]. split; [done|]. split.
  - destruct (list_find _ (Room.players r3)) as [[i p]|] eqn:Hfind; cbn.
    + apply list_find_Some in Hfind as (Hp & Hne & _). split; [done|].
      exists (Player.set_ready false p). split; [|done].
      apply list_elem_of_fmap_2. by eapply list_elem_of_lookup_2.
    + apply list_find_None in Hfind.
      intros p (q & -> & Hq)%list_elem_of_fmap. cbn.
      rewrite Forall_forall in Hfind.
      destruct (decide (Player.id q = Player.id e3)) as [|Hne]; [done|].
      by destruct (Hfind q Hq).
  - by intros p (q & -> & Hq)%list_elem_of_fmap.
Qed.

(** The end of [tick] leaves the verdict alone. *)
Lemma tick_end_lost (k k' : nat) (eater : Player.t) (room room' : Room.t) :
  tick_end k room = Some (k', room') → lost eater room → lost eater room'.
Proof.
  unfold tick_end.
  set (r1 := Room.set_lastSpawnTime _ _).
  assert ((Room.gameOver r1, Room.started r1, Room.loserId r1,
           Room.winnerId r1, Room.players r1)
          = (Room.gameOver room, Room.started room, Room.loserId room,
             Room.winnerId room, Room.players room)) as Hr1 by done.
  destruct (Js.geb _ _).
  - unfold spawnFood. destruct (decide _).
    + intros [= <- <-]. unfold lost. by simplify_eq/=.
    + destruct (food_type_at _); [|done]. intros [= <- <-].
      unfold lost. by simplify_eq/=.
  - intros [= <- <-]. unfold lost. by simplify_eq/=.
Qed.

(** C1: when the eating resolution consumes a food and the fullness of
    the eater then is at least MAX_FULLNESS, the room it leaves, and the
    room at the end of that tick, have [gameOver] true, [started] false,
    [loserId] the id of the eater, [winnerId] the id of a present player
    other than the eater ([null] when there is none) and no player
    ready. *)
Theorem handleEating_full_eater_loses (dt : float) (room room' : Room.t)
    (j fi : nat) (eater : Player.t) :
  handleEating_scan dt room = Eaten room' j fi →
  Room.players room' !! j = Some eater →
  Js.geb (Player.fullness eater) MAX_FULLNESS = true →
  handleEating dt room = room'
  ∧ lost eater room'
  ∧ ∀ k k' room'', tick_end k room' = Some (k', room'') → lost eater room''.
Proof.
  intros Hscan Heater Hfull.
  assert (lost eater room') as Hlost.
  { apply handleEating_foods_eaten in Hscan as (room0 & food & -> & Hj).
    by apply consume_full. }
  split; [by unfold handleEating; rewrite Hscan|].
  split; [done|]. intros k k' room'' Hend. by eapply tick_end_lost.
Qed.

End Eating.

Lemma handleEating_full_eater_loses_witness :
  let room' := handleEating (host := SampleHost.host) DT Sample.feast in
  Room.players room' !! 1%nat = Some Sample.stuffed
  ∧ Room.winnerId room' = Some "p_left"%string
  ∧ handleEating (host := SampleHost.host) DT Sample.feast = room'
  ∧ lost Sample.stuffed room'
  ∧ ∀ k k' room'',
      tick_end (host := SampleHost.host) k room' = Some (k', room'') →
      lost Sample.stuffed room''.
Proof.
  split; [reflexivity|]. split; [reflexivity|].
  apply (handleEating_full_eater_loses (host := SampleHost.host) DT
           Sample.feast _ 1 0 Sample.stuffed); reflexivity.
Defined.

(** ** At most one food per tick *)

(** Deleting a key that is present once is deleting its position. *)
Lemma filter_delete_key {K : Type} `{EqDecision K} (l : list K) (i : nat)
    (k : K) :
  NoDup l → l !! i = Some k → filter (λ y, y ≠ k) l = delete i l.
Proof.
  revert i. induction l as [|y l IH]; intros i Hnd Hi; [done|].
  apply NoDup_cons in Hnd as [Hy Hnd].
  rewrite filter_cons. destruct i as [|i]; simplify_eq/=.
  - rewrite decide_False by (intros Hne; by apply Hne).
    apply filter_all, Forall_forall. by intros z Hz ->.
  - rewrite decide_True.
    + f_equal. by apply IH.
    + intros ->. apply Hy. by eapply list_elem_of_lookup_2.
Qed.

Lemma fmap_filter_key {A K : Type} (key : A → K) (P : K → Prop)
    `{HP : !∀ k, Decision (P k)} `{HQ : !∀ x, Decision (P (key x))}
    (l : list A) :
  key <$> filter (λ x, P (key x)) l = filter P (key <$> l).
Proof.
  induction l as [|x l IH]; [done|].
  rewrite fmap_cons, !filter_cons.
  destruct (decide (P (key x))) as [Hy|Hn].
  - rewrite decide_True by done. cbn. by rewrite IH.
  - by rewrite decide_False.
Qed.

Section OneFoodPerTick.
Context {host : Host}.

Lemma dwell_touched_by (dt : float) (ids : list string) (p : Player.t)
    (f f0 : Food.t) :
  touched_by ids f f0 → Player.id p ∉ ids → dwell dt p f = dwell dt p f0.
Proof.
  intros (_ & Hx & Hy & Ht) Hp. unfold dwell. by rewrite Hx, Hy, Ht.
Qed.

Lemma timer_reached_touch (dt : float) (p : Player.t) (f : Food.t) :
  timer_reached (Player.id p) (touch dt p f) = Js.geb (dwell dt p f) EAT_TIME.
Proof.
  unfold timer_reached, touch. cbn [Food.set_mouthTimers Food.mouthTimers].
  by rewrite lookup_insert_eq.
Qed.

Lemma touched_by_touch (dt : float) (ids : list string) (p : Player.t)
    (f f0 : Food.t) :
  touched_by ids f f0 → touched_by (ids ++ [Player.id p]) (touch dt p f) f0.
Proof.
  intros (Hid & Hx & Hy & Ht). unfold touch.
  repeat split; try done. cbn [Food.set_mouthTimers Food.mouthTimers].
  intros k Hk. rewrite lookup_insert_ne by set_solver. apply Ht. set_solver.
Qed.

Lemma consume_foods (j : nat) (food : Food.t) (room : Room.t) :
  Room.foods (consume j food room)
  = filter (λ f, Food.id f ≠ Food.id food) (Room.foods room).
Proof.
  unfold consume.
  set (r1 := Room.alter_player _ j room).
  set (r2 := match Food.holder food with Some _ => _ | None => r1 end).
  assert (Room.foods r2 = Room.foods room) as Hr2.
  { unfold r2. destruct (Food.holder food); [|done].
    by destruct (Room.player_index _ _). }
  rewrite <- Hr2. set (r3 := Room.set_foods _ r2).
  destruct (Room.players r3 !! j); [|done]. by destruct (Js.geb _ _).
Qed.

Lemma scanning_trans (r0 r1 r2 : Room.t) :
  scanning r0 r1 → scanning r1 r2 → scanning r0 r2.
Proof. intros [? ?] [? ?]. split; congruence. Qed.

Lemma scanning_touch (dt : float) (p : Player.t) (fi : nat) (room : Room.t) :
  scanning room (Room.alter_food (touch dt p) fi room).
Proof. split; [done|]. room_fields. by apply fmap_alter_key. Qed.

(** The inner loop, from the player after [pre] on. *)
Lemma handleEating_players_scan (dt : float) (fi : nat) (f0 : Food.t)
    (rest pre : list Player.t) (room : Room.t) (f : Food.t) :
  Room.players room = pre ++ rest →
  NoDup (Player.id <$> pre ++ rest) →
  Room.foods room !! fi = Some f →
  touched_by (Player.id <$> pre) f f0 →
  let run :=
    handleEating_players dt fi (seq (length pre) (length rest)) room in
  if decide (reached dt rest f0) then
    ∃ r1 f1 j, run = Eaten (consume j f1 r1) j fi
               ∧ scanning room r1 ∧ Food.id f1 = Food.id f0
  else
    ∃ room', run = Next room' ∧ scanning room room'
             ∧ ∀ i, i ≠ fi → Room.foods room' !! i = Room.foods room !! i.
Proof.
  revert pre room f. induction rest as [|p rest IH]; intros pre room f.
  { intros _ _ _ _. cbn. rewrite decide_False by by intros ?%Exists_nil.
    by exists room. }
  intros Hps Hnd Hf Htouched. cbn zeta. cbn [length seq handleEating_players].
  assert (Room.players room !! length pre = Some p) as Hp
    by (rewrite Hps; apply list_lookup_middle; done).
  rewrite Hf, Hp, timer_reached_touch.
  assert (Player.id p ∉ Player.id <$> pre) as Hfresh.
  { pose proof Hnd as Hnd'. rewrite fmap_app, fmap_cons in Hnd'.
    apply NoDup_app in Hnd' as (_ & Hnd' & _).
    intros Hin. apply (Hnd' _ Hin). by left. }
  rewrite (dwell_touched_by dt _ p f f0) by done.
  set (room1 := Room.alter_food (touch dt p) fi room).
  pose proof (scanning_touch dt p fi room) as Hscan1. fold room1 in Hscan1.
  destruct (Js.geb (dwell dt p f0) EAT_TIME) eqn:Hreach.
  - rewrite decide_True by by left.
    exists room1, (touch dt p f), (length pre).
    split; [done|]. split; [done|]. apply Htouched.
  - specialize (IH (pre ++ [p]) room1 (touch dt p f)).
    rewrite length_app in IH. cbn [length] in IH.
    replace (length pre + 1)%nat with (S (length pre)) in IH by lia.
    rewrite <- app_assoc in IH. cbn [app] in IH.
    specialize (IH Hps Hnd).
    assert (Room.foods room1 !! fi = Some (touch dt p f)) as Hf1.
    { unfold room1. room_fields. fold (Room.foods room).
      by rewrite list_lookup_alter_eq, Hf. }
    assert (touched_by (Player.id <$> pre ++ [p]) (touch dt p f) f0) as Ht1
      by (rewrite fmap_app; by apply touched_by_touch).
    specialize (IH Hf1 Ht1).
    assert (reached dt (p :: rest) f0 ↔ reached dt rest f0) as Hiff.
    { unfold reached. rewrite Exists_cons. split; [|by right].
      intros [Hhd|]; [congruence|done]. }
    destruct (decide (reached dt rest f0)) as [Hr|Hr].
    + rewrite decide_True by by apply Hiff.
      destruct IH as (r1 & f1 & j & Hrun & Hsc & Hid).
      exists r1, f1, j. split; [done|]. split; [|done].
      by eapply scanning_trans.
    + rewrite decide_False by by rewrite Hiff.
      destruct IH as (room' & Hrun & Hsc & Hframe).
      exists room'. split; [done|]. split; [by eapply scanning_trans|].
      intros i Hi. rewrite Hframe by done. unfold room1. room_fields.
      fold (Room.foods room). by apply list_lookup_alter_ne.
Qed.

(** The outer loop, from the food after [pre] on. *)
Lemma handleEating_foods_scan (dt : float) (room0 : Room.t)
    (rest pre : list Food.t) (room : Room.t) :
  NoDup (Player.id <$> Room.players room0) →
  Room.foods room0 = pre ++ rest →
  scanning room0 room →
  (∀ i, (length pre ≤ i)%nat →
        Room.foods room !! i = Room.foods room0 !! i) →
  let run := handleEating_foods dt (seq (length pre) (length rest)) room in
  match list_find (reached dt (Room.players room0)) rest with
  | Some (i, f) =>
      ∃ r1 f1 j, run = Eaten (consume j f1 r1) j (length pre + i)
                 ∧ scanning room0 r1 ∧ Food.id f1 = Food.id f
  | None => ∃ room', run = Next room' ∧ scanning room0 room'
  end.
Proof.
  intros Hnd. revert pre room.
  induction rest as [|f rest IH]; intros pre room Hfoods Hsc Hframe.
  { cbn. by exists room. }
  cbn zeta. cbn [length seq handleEating_foods list_find].
  assert (Room.foods room !! length pre = Some f) as Hf.
  { rewrite Hframe by done. rewrite Hfoods. by apply list_lookup_middle. }
  destruct Hsc as [Hps Hids].
  pose proof (handleEating_players_scan dt (length pre) f
                (Room.players room0) [] room f) as Hinner.
  cbn [length app] in Hinner. rewrite Hps in Hinner |- *.
  specialize (Hinner eq_refl Hnd Hf).
  assert (touched_by (Player.id <$> []) f f) as Hsame by done.
  specialize (Hinner Hsame). cbn zeta in Hinner.
  destruct (decide (reached dt (Room.players room0) f)) as [Hr|Hr].
  - destruct Hinner as (r1 & f1 & j & -> & [Hps1 Hids1] & Hid).
    cbn. exists r1, f1, j. rewrite Nat.add_0_r.
    split; [done|]. split; [|done]. split; congruence.
  - destruct Hinner as (room' & -> & [Hps1 Hids1] & Hframe1).
    specialize (IH (pre ++ [f]) room').
    rewrite length_app in IH. cbn [length] in IH.
    replace (length pre + 1)%nat with (S (length pre)) in IH by lia.
    rewrite <- app_assoc in IH. cbn [app] in IH.
    assert (scanning room0 room') as Hsc' by (split; congruence).
    specialize (IH Hfoods Hsc').
    assert (∀ i, (S (length pre) ≤ i)%nat →
                 Room.foods room' !! i = Room.foods room0 !! i) as Hframe'.
    { intros i Hi. rewrite Hframe1 by lia. apply Hframe. lia. }
    specialize (IH Hframe'). cbn zeta in IH.
    destruct (list_find _ rest) as [[i f']|]; cbn.
    + destruct IH as (r1 & f1 & j & Hrun & Hsc1 & Hid).
      exists r1, f1, j. split; [|done]. rewrite Hrun.
      by replace (S (length pre) + i)%nat with (length pre + S i)%nat by lia.
    + done.
Qed.


(** C2: one run of the eating resolution, in a room whose players and
    foods have ids of their own.  When no food has been in a mouth for
    [EAT_TIME], no food is removed.  Otherwise the scan stops at the first
    such food, in the order of [room.foods]: that food is removed, and
    every other food stays, those that qualify as well.  Either way at
    most one food is gone. *)
Theorem handleEating_eats_first_reached (dt : float) (room : Room.t) :
  NoDup (Player.id <$> Room.players room) →
  NoDup (Food.id <$> Room.foods room) →
  let room' := handleEating dt room in
  match first_reached dt room with
  | Some fi =>
      (∃ j, handleEating_scan dt room = Eaten room' j fi)
      ∧ Food.id <$> Room.foods room' = Food.id <$> delete fi (Room.foods room)
      ∧ S (length (Room.foods room')) = length (Room.foods room)
  | None =>
      (∃ r, handleEating_scan dt room = Next r)
      ∧ Food.id <$> Room.foods room' = Food.id <$> Room.foods room
      ∧ length (Room.foods room') = length (Room.foods room)
  end.
Proof.
  intros Hps Hfs room'.
  pose proof (handleEating_foods_scan dt room (Room.foods room) [] room Hps
                eq_refl (conj eq_refl eq_refl) (λ _ _, eq_refl)) as Hscan.
  cbn zeta in Hscan. cbn [length] in Hscan.
  fold (handleEating_scan dt room) in Hscan.
  unfold first_reached, room', handleEating.
  destruct (list_find _ (Room.foods room)) as [[i f]|] eqn:Hfind; cbn [fmap option_fmap option_map fst].
  - destruct Hscan as (r1 & f1 & j & -> & [_ Hids] & Hid). cbn [scan_room plus].
    apply list_find_Some in Hfind as (Hi & _ & _).
    assert (Food.id <$> Room.foods (consume j f1 r1)
            = Food.id <$> delete i (Room.foods room)) as Hgone.
    { rewrite consume_foods.
      etransitivity;
        [apply (fmap_filter_key Food.id (λ k, k ≠ Food.id f1))|].
      rewrite Hids, Hid, list_fmap_delete.
      apply filter_delete_key; [done|]. by rewrite list_lookup_fmap, Hi. }
    split; [by exists j|]. split; [done|].
    rewrite <- (length_fmap Food.id), Hgone, length_fmap, length_delete
      by done.
    pose proof (lookup_lt_Some _ _ _ Hi). lia.
  - destruct Hscan as (r & -> & [_ Hids]). cbn [scan_room].
    split; [by exists r|]. split; [done|].
    by rewrite <- (length_fmap Food.id), Hids, length_fmap.
Qed.

End OneFoodPerTick.

Lemma handleEating_eats_first_reached_witness :
  let room' := handleEating (host := SampleHost.host) DT Sample.banquet in
  reached (host := SampleHost.host) DT (Room.players Sample.banquet)
    Sample.dumpling
  ∧ reached (host := SampleHost.host) DT (Room.players Sample.banquet)
      Sample.bun
  ∧ first_reached (host := SampleHost.host) DT Sample.banquet = Some 1%nat
  ∧ (∃ j, handleEating_scan (host := SampleHost.host) DT Sample.banquet
          = Eaten room' j 1)
  ∧ Food.id <$> Room.foods room'
    = Food.id <$> delete 1%nat (Room.foods Sample.banquet)
  ∧ S (length (Room.foods room')) = length (Room.foods Sample.banquet).
Proof.
  split; [apply (bool_decide_unpack _); vm_compute; exact I|].
  split; [apply (bool_decide_unpack _); vm_compute; exact I|].
  split; [reflexivity|].
  apply (handleEating_eats_first_reached (host := SampleHost.host) DT
           Sample.banquet);
    apply (bool_decide_unpack _); vm_compute; exact I.
Defined.


(** ** Picking up *)

Section Pickup.
Context {host : Host}.




End Pickup.



(** ** An aim that stops the server *)

Section Hang.
Context {host : Host}.

Lemma for_each_player_opt_stuck (body : nat → Room.t → option Room.t)
    (room : Room.t) :
  (0 < length (Room.players room))%nat →
  body 0%nat room = None →
  for_each_player_opt body room = None.
Proof.
  intros Hlen Hbody. unfold for_each_player_opt.
  destruct (length (Room.players room)) as [|n]; [lia|].
  cbn [seq foldl mbind option_bind]. rewrite Hbody.
  generalize (seq 1 n). intros ks. by induction ks.
Qed.

Lemma updatePlayers_body_stuck (fuel : nat) (dt : float) (i : nat)
    (room : Room.t) (player : Player.t) :
  Room.players room !! i = Some player →
  rotateTowards fuel (Player.angle player) (Input.aim (Player.input player))
    (MAX_ANGULAR_SPEED * dt) = None →
  updatePlayers_body fuel dt i room = None.
Proof.
  intros Hp Hrot. unfold updatePlayers_body. rewrite Hp.
  cbn [Player.set_x Player.set_y Player.set_targetAngle Player.angle
       Player.targetAngle].
  by rewrite Hrot.
Qed.

(** A running room whose first player has an aim that [rotateTowards]
    cannot normalise: [tick] does not return. *)
Lemma tick_stuck (fuel k : nat) (room : Room.t) (player : Player.t) :
  Room.started room = true → Room.gameOver room = false →
  Room.players room !! 0%nat = Some player →
  rotateTowards fuel (Player.angle player) (Input.aim (Player.input player))
    (MAX_ANGULAR_SPEED * DT) = None →
  tick fuel k room = None.
Proof.
  intros Hs Hg Hp Hrot. unfold tick. rewrite Hs, Hg. cbn [negb orb].
  unfold updatePlayers. rewrite for_each_player_opt_stuck; [done| |].
  - apply lookup_lt_Some in Hp. lia.
  - by eapply updatePlayers_body_stuck.
Qed.

End Hang.

(** The message [{"type":"input","aim":1e300}] of the left player of
    [Sample.running] stores the aim [1e300]; no later tick of that room
    returns. *)
Lemma tick_hangs_after_huge_aim (fuel k : nat) :
  let c :=
    on_message (host := SampleHost.host) (MsgInput None (JNumber 1e300) JNull)
      Sample.conn_left in
  Input.aim (Player.input (Conn.self c)) = 1e300
  ∧ tick (host := SampleHost.host) fuel k (Conn.room c) = None.
Proof.
  split; [reflexivity|].
  eapply (tick_stuck (host := SampleHost.host)); try reflexivity.
  apply rotateTowards_stuck; reflexivity.
Qed.

(** ** Well-formed rooms are kept well formed *)

Lemma ids_of_keys (r : Room.t) :
  Player.id <$> Room.players r = fst <$> (player_key <$> Room.players r).
Proof. by rewrite <- list_fmap_compose. Qed.

Lemma sides_of_keys (r : Room.t) :
  Player.side <$> Room.players r = snd <$> (player_key <$> Room.players r).
Proof. by rewrite <- list_fmap_compose. Qed.

Lemma well_formed_identities (r r' : Room.t) :
  identities r' = identities r → well_formed r → well_formed r'.
Proof.
  unfold identities, well_formed. intros [= Hk Hf Hn].
  by rewrite !ids_of_keys, !sides_of_keys, Hk, Hf, Hn.
Qed.

(** A mutation of the object at one position that keeps its key. *)
Lemma fmap_alter_key_at {A K : Type} (key : A → K) (g : A → A) (i : nat)
    (l : list A) :
  (∀ x, l !! i = Some x → key (g x) = key x) →
  key <$> alter g i l = key <$> l.
Proof.
  revert i. induction l as [|y l IH]; intros [|i] Hg; cbn; try done.
  - by rewrite Hg.
  - f_equal. by apply IH.
Qed.

Lemma identities_alter_player (g : Player.t → Player.t) (i : nat)
    (r : Room.t) :
  (∀ p, Room.players r !! i = Some p → player_key (g p) = player_key p) →
  identities (Room.alter_player g i r) = identities r.
Proof.
  intros Hg. unfold identities. room_fields.
  fold (Room.players r). by rewrite fmap_alter_key_at.
Qed.

Lemma identities_alter_food (g : Food.t → Food.t) (i : nat) (r : Room.t) :
  (∀ f, Room.foods r !! i = Some f → Food.id (g f) = Food.id f) →
  identities (Room.alter_food g i r) = identities r.
Proof.
  intros Hg. unfold identities. room_fields.
  fold (Room.foods r). by rewrite fmap_alter_key_at.
Qed.

Lemma for_each_player_opt_preserves {A : Type} (proj : Room.t → A)
    (body : nat → Room.t → option Room.t) (r r' : Room.t) :
  (∀ k r r', body k r = Some r' → proj r' = proj r) →
  for_each_player_opt body r = Some r' → proj r' = proj r.
Proof.
  intros Hbody. unfold for_each_player_opt.
  generalize (seq 0 (length (Room.players r))). intros ks. revert r.
  induction ks as [|k ks IH]; intros r; cbn [foldl].
  - by intros [= ->].
  - cbn [mbind option_bind]. destruct (body k r) as [r1|] eqn:E.
    + intros Hrest. rewrite (IH _ Hrest). by eapply Hbody.
    + intros Hrest. exfalso. clear -Hrest.
      induction ks as [|k' ks IH']; [done|]. by apply IH'.
Qed.

Section WellFormed.
Context {host : Host}.

Lemma identities_releaseFood (i : nat) (r : Room.t) :
  identities (releaseFood i r) = identities r.
Proof.
  unfold releaseFood. destruct (Room.players r !! i) as [p|]; [|done].
  destruct (Player.holding p); [|done].
  destruct (Room.food_index _ _).
  - rewrite identities_alter_player by done.
    by rewrite identities_alter_food.
  - by rewrite identities_alter_player.
Qed.

Lemma identities_updatePlayers_body (fuel : nat) (dt : float) (i : nat)
    (r r' : Room.t) :
  updatePlayers_body fuel dt i r = Some r' → identities r' = identities r.
Proof.
  unfold updatePlayers_body.
  destruct (Room.players r !! i) as [p|] eqn:Hp; [|by intros [= <-]].
  destruct (rotateTowards _ _ _ _) as [a|]; [|done].
  cbn [mbind option_bind]. intros [= <-].
  rewrite identities_alter_player by done.
  set (r1 := Room.alter_player _ i r).
  assert (identities r1 = identities r) as Hr1.
  { apply identities_alter_player. intros q Hq. by simplify_eq. }
  destruct (Input.release _); [|done]. by rewrite identities_releaseFood.
Qed.

Lemma identities_tryPickup (fuel : nat) (i : nat) (r r' : Room.t) :
  tryPickup fuel i r = Some r' → identities r' = identities r.
Proof.
  unfold tryPickup.
  destruct (Room.players r !! i) as [p|]; [|by intros [= <-]].
  destruct (Player.holding p); [by intros [= <-]|].
  destruct (find_candidate _ _ _ _) as [[j|]|]; cbn [mbind option_bind];
    [|by intros [= <-]|done].
  destruct (Room.foods r !! j); [|by intros [= <-]].
  intros [= <-]. rewrite identities_alter_player by done.
  by rewrite identities_alter_food.
Qed.

Lemma identities_updateHeldFoods_body (i : nat) (r : Room.t) :
  identities (updateHeldFoods_body i r) = identities r.
Proof.
  unfold updateHeldFoods_body.
  destruct (Room.players r !! i) as [p|]; [|done].
  destruct (Player.holding p); [|done].
  destruct (Room.food_index _ _).
  - by rewrite identities_alter_food.
  - by rewrite identities_alter_player.
Qed.

Lemma identities_updateFoods (dt : float) (k : nat) (r : Room.t) :
  identities (updateFoods dt k r).2 = identities r.
Proof.
  unfold updateFoods.
  pose proof (updateFoods_loop_ids dt k (Room.foods r)) as Hids.
  destruct (updateFoods_loop dt k (Room.foods r)) as [k' foods].
  unfold identities. room_fields. cbn [snd] in *. by rewrite Hids.
Qed.

(** [consume] keeps who is there and the counter, and removes foods by
    id. *)
Lemma consume_identities (j : nat) (food : Food.t) (r : Room.t) :
  identities (consume j food r)
  = (player_key <$> Room.players r,
     filter (λ i, i ≠ Food.id food) (Food.id <$> Room.foods r),
     Room.nextFoodId r).
Proof.
  pose proof (consume_foods j food r) as Hfoods. revert Hfoods.
  unfold consume.
  set (r1 := Room.alter_player _ j r).
  assert (identities r1 = identities r) as H1
    by by apply identities_alter_player.
  set (r2 := match Food.holder food with Some _ => _ | None => r1 end).
  assert (identities r2 = identities r) as H2.
  { rewrite <- H1. unfold r2. destruct (Food.holder food); [|done].
    destruct (Room.player_index _ _); [|done].
    by apply identities_alter_player. }
  set (r3 := Room.set_foods _ r2).
  assert (player_key <$> Room.players r3 = player_key <$> Room.players r
          ∧ Room.nextFoodId r3 = Room.nextFoodId r) as [Hk Hn].
  { unfold identities in H2. by simplify_eq. }
  intros Hfoods. unfold identities. rewrite Hfoods.
  rewrite <- (fmap_filter_key Food.id (λ i, i ≠ Food.id food)).
  destruct (Room.players r3 !! j); [|by rewrite Hk, Hn].
  destruct (Js.geb _ _); [|by rewrite Hk, Hn].
  cbn [Room.set_players Room.set_started Room.set_winnerId Room.set_loserId
       Room.set_gameOver Room.players Room.nextFoodId Room.foods].
  rewrite <- Hk, <- Hn, <- list_fmap_compose. done.
Qed.

Lemma identities_inv (r r' : Room.t) :
  identities r' = identities r →
  player_key <$> Room.players r' = player_key <$> Room.players r
  ∧ Food.id <$> Room.foods r' = Food.id <$> Room.foods r
  ∧ Room.nextFoodId r' = Room.nextFoodId r.
Proof. unfold identities. intros H. by simplify_eq. Qed.

Lemma scanned_after (r r1 : Room.t) (s : scan) :
  identities r1 = identities r → scanned r1 s → scanned r s.
Proof.
  intros (Hk & Hf & Hn)%identities_inv. destruct s as [r'|r' j i]; cbn.
  - intros ->. unfold identities. by rewrite Hk, Hf, Hn.
  - intros [k ->]. exists k. by rewrite Hk, Hf, Hn.
Qed.

Lemma handleEating_players_scanned (dt : float) (fi : nat) (js : list nat)
    (r : Room.t) :
  scanned r (handleEating_players dt fi js r).
Proof.
  revert r. induction js as [|j js IH]; intros r; [done|].
  cbn [handleEating_players].
  destruct (Room.foods r !! fi) as [food|]; [|done].
  destruct (Room.players r !! j) as [player|]; [|done].
  assert (identities (Room.alter_food (touch dt player) fi r) = identities r)
    as Htouch by by apply identities_alter_food.
  apply (scanned_after _ _ _ Htouch).
  destruct (timer_reached _ _); [|apply IH].
  exists (Food.id (touch dt player food)). apply consume_identities.
Qed.

Lemma handleEating_foods_scanned (dt : float) (fis : list nat) (r : Room.t) :
  scanned r (handleEating_foods dt fis r).
Proof.
  revert r. induction fis as [|fi fis IH]; intros r; [done|].
  cbn [handleEating_foods].
  pose proof (handleEating_players_scanned dt fi
                (seq 0 (length (Room.players r))) r) as Hinner.
  destruct (handleEating_players _ _ _ _) as [r1|r1 j1 i1]; [|done].
  by apply (scanned_after _ r1).
Qed.

(** A key that occurs once at most: deleting it shortens by one at most. *)
Lemma length_filter_ne {K : Type} `{EqDecision K} (l : list K) (k : K) :
  NoDup l → (length l ≤ S (length (filter (λ i, i ≠ k) l)))%nat.
Proof.
  induction 1 as [|x l Hx Hnd IH]; [cbn; lia|].
  rewrite filter_cons. destruct (decide (x ≠ k)) as [Hne|Heq]; cbn; [lia|].
  rewrite filter_all; [lia|].
  apply Forall_forall. intros y Hy Hyk. subst y. apply Hx.
  destruct (decide (x = k)) as [->|Hne]; [done|]. by destruct Heq.
Qed.

(** [handleEating] keeps a room well formed and eats one food at most. *)
Lemma handleEating_well_formed (dt : float) (r : Room.t) :
  well_formed r →
  well_formed (handleEating dt r)
  ∧ (length (Room.foods r) ≤ S (length (Room.foods (handleEating dt r))))%nat.
Proof.
  intros Hwf. unfold handleEating, handleEating_scan.
  pose proof (handleEating_foods_scanned dt
                (seq 0 (length (Room.foods r))) r) as Hscan.
  destruct (handleEating_foods _ _ _) as [r'|r' j i]; cbn [scanned scan_room] in *.
  - split; [by eapply well_formed_identities|].
    apply identities_inv in Hscan as (_ & Hids & _).
    apply (f_equal length) in Hids. rewrite !length_fmap in Hids. lia.
  - destruct Hscan as [k Hk].
    assert (player_key <$> Room.players r' = player_key <$> Room.players r
            ∧ Food.id <$> Room.foods r'
              = filter (λ i, i ≠ k) (Food.id <$> Room.foods r)
            ∧ Room.nextFoodId r' = Room.nextFoodId r) as (Hp & Hf & Hn)
      by (unfold identities in Hk; by simplify_eq).
    destruct Hwf as (Hids & Hsides & Hfoods & Hbound). split.
    + unfold well_formed.
      rewrite ids_of_keys, sides_of_keys, Hp, <- ids_of_keys,
        <- sides_of_keys, Hf, Hn.
      split; [done|]. split; [done|].
      split; [by apply NoDup_filter|].
      apply Forall_forall. intros x [_ Hx]%list_elem_of_filter.
      rewrite Forall_forall in Hbound. by apply Hbound.
    + rewrite <- (length_fmap Food.id), <- (length_fmap Food.id (Room.foods r')).
      rewrite Hf. by apply length_filter_ne.
Qed.

Lemma spawnFood_well_formed (k k' : nat) (r r' : Room.t) :
  spawnFood k r = Some (k', r') →
  (well_formed r → well_formed r')
  ∧ (length (Room.foods r) ≤ length (Room.foods r'))%nat.
Proof.
  unfold spawnFood. destruct (decide _).
  { intros [= <- <-]. done. }
  destruct (food_type_at _) as [type|]; [|done].
  cbn [mbind option_bind]. intros [= <- <-]. split.
  - intros (Hids & Hsides & Hfoods & Hbound). unfold well_formed.
    room_fields. fold (Room.players r) (Room.foods r) (Room.nextFoodId r).
    split; [done|]. split; [done|]. rewrite fmap_app. cbn [fmap list_fmap].
    split.
    + apply NoDup_app. split; [done|]. split; [|apply NoDup_singleton].
      intros i Hi Heq%list_elem_of_singleton.
      rewrite Forall_forall in Hbound. pose proof (Hbound _ Hi) as Hlt.
      cbn beta in Hlt. cbn [Food.id] in Heq. lia.
    + apply Forall_app. split.
      * eapply Forall_impl; [done|]. intros i Hi. cbn beta in Hi |- *. lia.
      * apply Forall_singleton. cbn [Food.id]. lia.
  - room_fields. rewrite length_app. lia.
Qed.

Lemma tick_end_well_formed (k k' : nat) (r r' : Room.t) :
  tick_end k r = Some (k', r') →
  (well_formed r → well_formed r')
  ∧ (length (Room.foods r) ≤ length (Room.foods r'))%nat.
Proof.
  unfold tick_end. destruct (Js.geb _ _).
  - intros Hspawn. by apply spawnFood_well_formed in Hspawn.
  - by intros [= <- <-].
Qed.

(** One tick keeps a room well formed, and takes one food away at most. *)
Lemma tick_well_formed (fuel k k' : nat) (r r' : Room.t) :
  tick fuel k r = Some (k', r') →
  well_formed r →
  well_formed r'
  ∧ (length (Room.foods r) ≤ S (length (Room.foods r')))%nat.
Proof.
  unfold tick. destruct (negb _ || _).
  { intros [= <- <-] Hwf. split; [done|lia]. }
  destruct (updatePlayers fuel DT r) as [r1|] eqn:H1; [|done].
  cbn [mbind option_bind].
  destruct (for_each_player_opt (tryPickup fuel) r1) as [r2|] eqn:H2; [|done].
  cbn [mbind option_bind].
  pose proof (identities_updateFoods DT k (updateHeldFoods r2)) as H4.
  destruct (updateFoods DT k (updateHeldFoods r2)) as [k4 r4]. cbn [snd] in H4.
  intros Hend Hwf.
  assert (identities r4 = identities r) as Hsame.
  { rewrite H4. transitivity (identities r2).
    { apply (for_each_player_preserves identities).
      apply identities_updateHeldFoods_body. }
    transitivity (identities r1).
    { eapply (for_each_player_opt_preserves identities); [|done].
      apply identities_tryPickup. }
    eapply (for_each_player_opt_preserves identities); [|done].
    apply identities_updatePlayers_body. }
  assert (well_formed r4) as Hwf4 by by eapply well_formed_identities.
  destruct (handleEating_well_formed DT r4 Hwf4) as [Hwf5 Hlen5].
  destruct (tick_end_well_formed _ _ _ _ Hend) as [Hwf' Hlen'].
  split; [by apply Hwf'|].
  apply identities_inv in Hsame as (_ & Hids & _).
  apply (f_equal length) in Hids. rewrite !length_fmap in Hids. lia.
Qed.

End WellFormed.

(** The handlers keep a room well formed. *)

Lemma createRoom_well_formed (roomId : string) : well_formed (createRoom roomId).
Proof. repeat split; constructor. Qed.

Lemma resetGameIfNeeded_well_formed (r : Room.t) :
  well_formed r → well_formed (resetGameIfNeeded r).
Proof.
  intros (Hids & Hsides & Hfoods & Hbound). unfold resetGameIfNeeded.
  destruct (decide _); [|done]. unfold well_formed. room_fields.
  fold (Room.players r). rewrite <- !list_fmap_compose.
  repeat split; try done; constructor.
Qed.

Lemma startRoom_well_formed (r : Room.t) :
  well_formed r → well_formed (startRoom r).
Proof.
  intros (Hids & Hsides & Hfoods & Hbound). unfold startRoom, well_formed.
  room_fields. fold (Room.players r). rewrite <- !list_fmap_compose.
  rewrite (list_fmap_ext (Player.id ∘ startRoom_player) Player.id
             (Room.players r))
    by (intros; apply startRoom_player_id).
  rewrite (list_fmap_ext (Player.side ∘ startRoom_player) Player.side
             (Room.players r))
    by (intros; apply startRoom_player_side).
  repeat split; try done; constructor.
Qed.

Lemma assignSide_fresh (r : Room.t) (side : Side) :
  assignSide r = Some side → side ∉ Player.side <$> Room.players r.
Proof.
  unfold assignSide.
  destruct (decide (left ∈ _)); [destruct (decide (right ∈ _))|];
    by intros [= <-].
Qed.

Section HandlersWellFormed.
Context {host : Host}.

Lemma on_connection_well_formed (roomId suffix : string)
    (existing : option Room.t) (c : Conn.t) :
  from_option well_formed True existing →
  from_option (λ r, Room.player_index ("p_" +:+ suffix) r = None) True
    existing →
  on_connection roomId suffix existing = Some c →
  well_formed (Conn.room c).
Proof.
  intros Hwf Hfresh. unfold on_connection.
  set (room := default (createRoom roomId) existing).
  assert (well_formed room) as Hroom.
  { unfold room. destruct existing; [done|apply createRoom_well_formed]. }
  assert (Room.player_index ("p_" +:+ suffix) room = None) as Hnew
    by (unfold room; by destruct existing).
  destruct (decide _); [done|].
  destruct (assignSide room) as [side|] eqn:Hside; [|done].
  cbn [mbind option_bind]. intros [= <-]. cbn [Conn.room].
  apply resetGameIfNeeded_well_formed.
  unfold set_player. cbn [new_player Player.id]. rewrite Hnew.
  destruct Hroom as (Hids & Hsides & Hfoods & Hbound).
  unfold well_formed. room_fields. fold (Room.players room).
  rewrite !fmap_app. cbn [fmap list_fmap Player.id Player.side].
  split; [|split; [|done]].
  - apply NoDup_app. split; [done|]. split; [|apply NoDup_singleton].
    intros pid Hin ->%list_elem_of_singleton.
    apply list_elem_of_fmap in Hin as (p & Hp & Hin).
    unfold Room.player_index in Hnew.
    destruct (list_find _ (Room.players room)) as [[]|] eqn:Hfind; [done|].
    apply list_find_None in Hfind. rewrite Forall_forall in Hfind.
    by apply (Hfind p Hin).
  - apply NoDup_app. split; [done|]. split; [|apply NoDup_singleton].
    intros s Hin ->%list_elem_of_singleton.
    by apply (assignSide_fresh room side).
Qed.

Lemma on_message_well_formed (msg : Msg) (c : Conn.t) :
  well_formed (Conn.room c) → well_formed (Conn.room (on_message msg c)).
Proof.
  intros Hwf.
  assert (∀ g, (∀ p, player_key (g p) = player_key p) →
               well_formed (Conn.room (Conn.alter_self g c))) as Halter.
  { intros g Hg. unfold Conn.alter_self.
    destruct (Room.player_index _ _); [|done]. cbn [Conn.set_room Conn.room].
    eapply well_formed_identities; [|done].
    by apply identities_alter_player. }
  destruct msg as [move aim release|ready|]; cbn [on_message]; [| |done].
  - destruct (negb _); [done|]. by apply Halter.
  - destruct (allReady _); [|by apply Halter].
    cbn [Conn.set_room Conn.room]. apply startRoom_well_formed.
    by apply Halter.
Qed.

Lemma on_close_well_formed (c : Conn.t) :
  well_formed (Conn.room c) → well_formed (Conn.room (on_close c)).
Proof.
  intros (Hids & Hsides & Hfoods & Hbound).
  rewrite on_close_unfold. cbn [Conn.room]. unfold room_after_leave.
  apply resetGameIfNeeded_well_formed.
  set (me := Conn.self c).
  assert (well_formed (delete_player (Player.id me) (Conn.room c))) as Hdel.
  { unfold well_formed, delete_player.
    cbn [Room.set_players Room.players Room.foods Room.nextFoodId].
    split; [|split; [|done]].
    - eapply sublist_NoDup; [exact Hids|].
      apply fmap_sublist, sublist_filter.
    - eapply sublist_NoDup; [exact Hsides|].
      apply fmap_sublist, sublist_filter. }
  unfold free_held. destruct (Player.holding me); [|done].
  destruct (Room.food_index _ _); [|done].
  eapply well_formed_identities; [|done].
  by apply identities_alter_food.
Qed.

End HandlersWellFormed.


